(** * Edit history of the photo editor (App component)

    A shallow embedding of the state and event handlers of the [App]
    component (third document of [src/components/TemplatePanel.tsx]):
    the revision history with its cursor, undo/redo navigation, the
    transform, crop and export flows, and the classification of API
    failures.

    React state is modelled as one record [State]; a handler is a function
    of the render snapshot it closed over, returning the batch of [set...]
    calls it issues.  Firing a handler on a state applies the batch to the
    very state it was rendered from.

    Around the handlers sit the helper [dataURLtoFile], the name given to a
    download, the object URLs that the two effects create and revoke, the
    screen chosen by [renderContent], and the transform handlers split at
    their [await], which lets a response settle on a later state than the
    one it was started from. *)

From Stdlib Require Import ZArith QArith Qcanon String Ascii List.
From stdpp Require Import base tactics option list numbers strings gmap.

Local Open Scope string_scope.
Local Open Scope list_scope.
Local Open Scope Z_scope.

(** ** JavaScript built-ins used by the component *)
Module Js.

(** [Array.prototype.slice(start, end)]: negative indices count from the
    end, both bounds are clamped to the array, an empty range yields the
    empty array. *)
Definition slice {A} (l : list A) (start end_ : Z) : list A :=
  let len := Z.of_nat (length l) in
  let k := if start <? 0 then Z.max (len + start) 0 else Z.min start len in
  let final := if end_ <? 0 then Z.max (len + end_) 0 else Z.min end_ len in
  take (Z.to_nat (final - k)) (drop (Z.to_nat k) l).

(** [arr[i] ?? null] for a numeric index: [undefined] outside the array. *)
Definition at_index {A} (l : list A) (i : Z) : option A :=
  if i <? 0 then None else l !! Z.to_nat i.

(** [String.prototype.includes(sub)]: [sub] occurs somewhere in [s]. *)
Fixpoint includes (s sub : string) : bool :=
  String.prefix sub s ||
  match s with
  | EmptyString => false
  | String _ s' => includes s' sub
  end.

(** A text is held as the bytes of its UTF-8 encoding, which is what a
    string literal of this file denotes; a character of one byte is an
    ASCII character.  Binary strings, the results of [atob], hold one
    character code below 256 per byte. *)

(** The white space and line terminators of one byte that
    [String.prototype.trim] strips: TAB, LF, VT, FF, CR and SPACE. *)
Definition is_white_space (c : ascii) : bool :=
  let n := N_of_ascii c in
  ((9 <=? n) && (n <=? 13) || (n =? 32))%N.

(** The white space of two bytes: U+00A0, the no-break space. *)
Definition is_white_space2 (a b : ascii) : bool :=
  ((N_of_ascii a =? 194) && (N_of_ascii b =? 160))%N.

(** The white space and line terminators of three bytes: U+1680,
    U+2000 to U+200A, U+2028, U+2029, U+202F, U+205F, U+3000 and
    U+FEFF. *)
Definition is_white_space3 (a b c : ascii) : bool :=
  let x := N_of_ascii a in
  let y := N_of_ascii b in
  let z := N_of_ascii c in
  ((x =? 225) && (y =? 154) && (z =? 128) ||
   (x =? 226) && (y =? 128) &&
     ((128 <=? z) && (z <=? 138) || (z =? 168) || (z =? 169) || (z =? 175)) ||
   (x =? 226) && (y =? 129) && (z =? 159) ||
   (x =? 227) && (y =? 128) && (z =? 128) ||
   (x =? 239) && (y =? 187) && (z =? 191))%N.

Fixpoint trimStart (s : string) : string :=
  match s with
  | EmptyString => EmptyString
  | String a s1 =>
      if is_white_space a then trimStart s1
      else
        match s1 with
        | EmptyString => s
        | String b s2 =>
            if is_white_space2 a b then trimStart s2
            else
              match s2 with
              | EmptyString => s
              | String c s3 => if is_white_space3 a b c then trimStart s3 else s
              end
        end
  end.

(** [s] holds nothing but white space and line terminators. *)
Fixpoint all_white_space (s : string) : bool :=
  match s with
  | EmptyString => true
  | String a s1 =>
      if is_white_space a then all_white_space s1
      else
        match s1 with
        | EmptyString => false
        | String b s2 =>
            if is_white_space2 a b then all_white_space s2
            else
              match s2 with
              | EmptyString => false
              | String c s3 => is_white_space3 a b c && all_white_space s3
              end
        end
  end.

(** The text up to the point from which only white space follows. *)
Fixpoint trimEnd (s : string) : string :=
  match s with
  | EmptyString => EmptyString
  | String a s1 => if all_white_space s then EmptyString else String a (trimEnd s1)
  end.

Definition trim (s : string) : string := trimEnd (trimStart s).

(** Truthiness of a string: only the empty string is falsy. *)
Definition truthy (s : string) : bool :=
  match s with EmptyString => false | _ => true end.

(** A value caught by [catch (err)]: an [Error] instance carrying its
    [message], or anything else. *)
Inductive Thrown :=
| ErrorObj (message : string)
| NonError.

(** What an awaited computation inside [try] delivers. *)
Inductive Outcome (A : Type) :=
| Resolved (a : A)
| Rejected (err : Thrown).
Arguments Resolved {A} a.
Arguments Rejected {A} err.

(** [String.prototype.split(sep)] for a one-character separator: the
    pieces between the separators, always at least one piece. *)
Fixpoint split (sep : ascii) (s : string) : list string :=
  match s with
  | EmptyString => [EmptyString]
  | String c s' =>
      if Ascii.eqb c sep then EmptyString :: split sep s'
      else
        match split sep s' with
        | piece :: pieces => String c piece :: pieces
        | [] => [String c EmptyString]
        end
  end.

(** [String.prototype.lastIndexOf(c)] for a one-character needle: the last
    position of [c], or [-1]. *)
Fixpoint lastIndexOf (s : string) (c : ascii) : Z :=
  match s with
  | EmptyString => -1
  | String d s' =>
      let later := lastIndexOf s' c in
      if 0 <=? later then later + 1
      else if Ascii.eqb d c then 0 else -1
  end.

(** [String.prototype.substring(start, end)]: both arguments are clamped to
    [0 .. length] and swapped when [start > end].  Positions count bytes,
    as those of [lastIndexOf] do; the component cuts a text only at a
    position that [lastIndexOf] found, where the two counts name the same
    place. *)
Definition substring (s : string) (start end_ : Z) : string :=
  let len := Z.of_nat (String.length s) in
  let a := Z.min (Z.max start 0) len in
  let b := Z.min (Z.max end_ 0) len in
  let from := Z.min a b in
  let to := Z.max a b in
  String.substring (Z.to_nat from) (Z.to_nat (to - from)) s.

(** ASCII lowercase of one character. *)
Definition lower (c : ascii) : ascii :=
  let n := N_of_ascii c in
  if ((65 <=? n) && (n <=? 90))%N then ascii_of_N (n + 32) else c.

(** *** [atob]: forgiving base64 decoding *)

(** The white space [atob] strips: TAB, LF, FF, CR and SPACE. *)
Definition is_ascii_whitespace (c : ascii) : bool :=
  let n := N_of_ascii c in
  ((n =? 9) || (n =? 10) || (n =? 12) || (n =? 13) || (n =? 32))%N.

(** The value of a character of the base64 alphabet. *)
Definition sextet (c : ascii) : option N :=
  let n := N_of_ascii c in
  if ((65 <=? n) && (n <=? 90))%N then Some (n - 65)%N
  else if ((97 <=? n) && (n <=? 122))%N then Some (n - 71)%N
  else if ((48 <=? n) && (n <=? 57))%N then Some (n + 4)%N
  else if (n =? 43)%N then Some 62%N
  else if (n =? 47)%N then Some 63%N
  else None.

(** One or two trailing [=] are dropped from [data], given reversed. *)
Definition strip_padding_rev (rev_data : list ascii) : list ascii :=
  match rev_data with
  | "="%char :: "="%char :: rest => rest
  | "="%char :: rest => rest
  | _ => rev_data
  end.

Definition bits_to_char (n : N) : ascii := ascii_of_N (n mod 256).

(** Four sextets give three bytes; a final group of three gives two bytes
    and a final group of two gives one. *)
Fixpoint decode_sextets (ds : list N) : list ascii :=
  match ds with
  | a :: b :: c :: d :: rest =>
      let buffer := (a * 262144 + b * 4096 + c * 64 + d)%N in
      bits_to_char (buffer / 65536) :: bits_to_char (buffer / 256)
        :: bits_to_char buffer :: decode_sextets rest
  | [a; b; c] =>
      let buffer := ((a * 4096 + b * 64 + c) / 4)%N in
      [bits_to_char (buffer / 256); bits_to_char buffer]
  | [a; b] =>
      let buffer := ((a * 64 + b) / 16)%N in
      [bits_to_char buffer]
  | _ => []
  end.

(** [atob(data)]: the decoded binary string, or [None] when it throws
    [InvalidCharacterError]. *)
Definition atob (data : string) : option string :=
  let data := filter (fun c => negb (is_ascii_whitespace c)) (list_ascii_of_string data) in
  let data :=
    if (length data mod 4 =? 0)%nat then rev (strip_padding_rev (rev data)) else data in
  if (length data mod 4 =? 1)%nat then None
  else
    match mapM sextet data with
    | Some ds => Some (string_of_list_ascii (decode_sextets ds))
    | None => None
    end.

End Js.

(** ** The App component *)
Module App.
Import Js.

(** A [File]: an immutable blob with a name and a MIME type. *)
Record File := mkFile {
  file_name : string;
  file_type : string;
  file_bits : list Byte.byte
}.

(** *** Decoding a data URL into a [File] *)

(** How a call ends: with a value, with a thrown [Error] carrying a
    message, or with the [InvalidCharacterError] of [atob]. *)
Inductive Completion (A : Type) :=
| Returned (a : A)
| ThrowsError (message : string)
| ThrowsInvalidCharacter.
Arguments Returned {A} a.
Arguments ThrowsError {A} message.
Arguments ThrowsInvalidCharacter {A}.

(** The [.] of a regular expression matches no line terminator: not the
    two of one byte, LF and CR, and not the two of three bytes, the line
    separator U+2028 and the paragraph separator U+2029. *)
Definition is_line_terminator (c : ascii) : bool :=
  let n := N_of_ascii c in ((n =? 10) || (n =? 13))%N.

Definition lineSeparator : string :=
  String (ascii_of_N 226) (String (ascii_of_N 128) (String (ascii_of_N 168) EmptyString)).
Definition paragraphSeparator : string :=
  String (ascii_of_N 226) (String (ascii_of_N 128) (String (ascii_of_N 169) EmptyString)).

Definition at_line_terminator (s : string) : bool :=
  match s with
  | EmptyString => false
  | String c _ =>
      is_line_terminator c || String.prefix lineSeparator s
      || String.prefix paragraphSeparator s
  end.

(** [(.*?);] tried at one position: the shortest run of characters other
    than line terminators that is followed by a semicolon. *)
Fixpoint lazyUntilSemicolon (s : string) : option string :=
  match s with
  | EmptyString => None
  | String c s' =>
      if Ascii.eqb c ";" then Some EmptyString
      else if at_line_terminator s then None
      else option_map (String c) (lazyUntilSemicolon s')
  end.

(** [s.match(/:(.*?);/)], as its first capture group: the match at the
    leftmost colon from which the pattern succeeds. *)
Fixpoint mimeMatch (s : string) : option string :=
  match s with
  | EmptyString => None
  | String c s' =>
      if Ascii.eqb c ":" then
        match lazyUntilSemicolon s' with
        | Some group => Some group
        | None => mimeMatch s'
        end
      else mimeMatch s'
  end.

(** [bstr.charCodeAt(n)] as stored into a [Uint8Array]. *)
Definition charCodeAt (bstr : string) (n : nat) : Byte.byte :=
  match String.get n bstr with
  | Some c => byte_of_ascii c
  | None => Byte.x00
  end.

(** [while (n--) { u8arr[n] = bstr.charCodeAt(n); }] *)
Fixpoint copyCharCodes (bstr : string) (n : nat) (u8arr : list Byte.byte) : list Byte.byte :=
  match n with
  | O => u8arr
  | S m => copyCharCodes bstr m (<[m := charCodeAt bstr m]> u8arr)
  end.

(** The [type] a [File] is constructed with: lowercased, or empty when it
    holds a character outside U+0020 .. U+007E. *)
Definition is_printable (c : ascii) : bool :=
  let n := N_of_ascii c in ((32 <=? n) && (n <=? 126))%N.

Definition blobType (t : string) : string :=
  let cs := list_ascii_of_string t in
  if forallb is_printable cs then string_of_list_ascii (map lower cs)
  else EmptyString.

Definition dataURLtoFile (dataurl filename : string) : Completion File :=
  match split "," dataurl with
  | header :: payload :: _ =>
      match mimeMatch header with
      | Some mime =>
          if truthy mime then
            match atob payload with
            | Some bstr =>
                let n := String.length bstr in
                let u8arr := copyCharCodes bstr n (replicate n Byte.x00) in
                Returned (mkFile filename (blobType mime) u8arr)
            | None => ThrowsInvalidCharacter
            end
          else ThrowsError "Could not parse MIME type from data URL"
      | None => ThrowsError "Could not parse MIME type from data URL"
      end
  | _ => ThrowsError "Invalid data URL"
  end.

(** The tab ['crop'] is spelled [crop_tab]: [crop] names a state cell. *)
Inductive Tab := retouch | adjust | filters | crop_tab | templates.
Inductive ExportQuality := low | medium | high.

(** [{ x: number, y: number }] *)
Record Point := mkPoint { x : Qc; y : Qc }.

(** [Crop] and [PixelCrop] of react-image-crop. *)
Inductive CropUnit := px | percent.
Record Crop := mkCrop {
  crop_x : Qc; crop_y : Qc; crop_width : Qc; crop_height : Qc;
  crop_unit : CropUnit
}.

(** The [useState] cells of the component. *)
Record State := mkState {
  history : list File;
  historyIndex : Z;
  prompt : string;
  isLoading : bool;
  error : option string;
  editHotspot : option Point;
  displayHotspot : option Point;
  activeTab : Tab;
  crop : option Crop;
  completedCrop : option Crop;
  aspect : option Qc;
  isComparing : bool;
  exportQuality : ExportQuality
}.

(** The state of the first render. *)
Definition initialState : State :=
  {| history := []; historyIndex := -1; prompt := ""; isLoading := false;
     error := None; editHotspot := None; displayHotspot := None;
     activeTab := retouch; crop := None; completedCrop := None;
     aspect := None; isComparing := false; exportQuality := high |}.

(** *** State setters *)

Definition setHistory (v : list File) (s : State) : State :=
  mkState v (historyIndex s) (prompt s) (isLoading s) (error s)
    (editHotspot s) (displayHotspot s) (activeTab s) (crop s)
    (completedCrop s) (aspect s) (isComparing s) (exportQuality s).

Definition setHistoryIndex (v : Z) (s : State) : State :=
  mkState (history s) v (prompt s) (isLoading s) (error s)
    (editHotspot s) (displayHotspot s) (activeTab s) (crop s)
    (completedCrop s) (aspect s) (isComparing s) (exportQuality s).

Definition setPrompt (v : string) (s : State) : State :=
  mkState (history s) (historyIndex s) v (isLoading s) (error s)
    (editHotspot s) (displayHotspot s) (activeTab s) (crop s)
    (completedCrop s) (aspect s) (isComparing s) (exportQuality s).

Definition setIsLoading (v : bool) (s : State) : State :=
  mkState (history s) (historyIndex s) (prompt s) v (error s)
    (editHotspot s) (displayHotspot s) (activeTab s) (crop s)
    (completedCrop s) (aspect s) (isComparing s) (exportQuality s).

Definition setError (v : option string) (s : State) : State :=
  mkState (history s) (historyIndex s) (prompt s) (isLoading s) v
    (editHotspot s) (displayHotspot s) (activeTab s) (crop s)
    (completedCrop s) (aspect s) (isComparing s) (exportQuality s).

Definition setEditHotspot (v : option Point) (s : State) : State :=
  mkState (history s) (historyIndex s) (prompt s) (isLoading s) (error s)
    v (displayHotspot s) (activeTab s) (crop s)
    (completedCrop s) (aspect s) (isComparing s) (exportQuality s).

Definition setDisplayHotspot (v : option Point) (s : State) : State :=
  mkState (history s) (historyIndex s) (prompt s) (isLoading s) (error s)
    (editHotspot s) v (activeTab s) (crop s)
    (completedCrop s) (aspect s) (isComparing s) (exportQuality s).

Definition setActiveTab (v : Tab) (s : State) : State :=
  mkState (history s) (historyIndex s) (prompt s) (isLoading s) (error s)
    (editHotspot s) (displayHotspot s) v (crop s)
    (completedCrop s) (aspect s) (isComparing s) (exportQuality s).

Definition setCrop (v : option Crop) (s : State) : State :=
  mkState (history s) (historyIndex s) (prompt s) (isLoading s) (error s)
    (editHotspot s) (displayHotspot s) (activeTab s) v
    (completedCrop s) (aspect s) (isComparing s) (exportQuality s).

Definition setCompletedCrop (v : option Crop) (s : State) : State :=
  mkState (history s) (historyIndex s) (prompt s) (isLoading s) (error s)
    (editHotspot s) (displayHotspot s) (activeTab s) (crop s)
    v (aspect s) (isComparing s) (exportQuality s).

(** A batch of state writes, and its sequencing. *)
Definition Update := State -> State.
Definition skip : Update := fun s => s.
Definition seq (u v : Update) : Update := fun s => v (u s).
Declare Scope update_scope.
Delimit Scope update_scope with upd.
Bind Scope update_scope with Update.
Notation "u ;; v" := (seq u v)
  (at level 100, v at level 200, right associativity) : update_scope.
Local Open Scope update_scope.

(** A handler closes over the snapshot of the render that created it. *)
Definition Handler := State -> Update.
Definition fire (h : Handler) (s : State) : State := h s s.

(** *** Derived values of a render *)

Definition currentImage (r : State) : option File :=
  at_index (history r) (historyIndex r).
Definition originalImage (r : State) : option File :=
  at_index (history r) 0.

Definition canUndo (r : State) : bool := 0 <? historyIndex r.
Definition canRedo (r : State) : bool :=
  historyIndex r <? Z.of_nat (length (history r)) - 1.

(** *** Event handlers *)

Definition addImageToHistory (newImageFile : File) : Handler := fun r =>
  let newHistory := slice (history r) 0 (historyIndex r + 1) ++ [newImageFile] in
  setHistory newHistory ;;
  setHistoryIndex (Z.of_nat (length newHistory) - 1) ;;
  setCrop None ;;
  setCompletedCrop None.

Definition handleImageUpload (file : File) : Handler := fun _ =>
  setError None ;;
  setHistory [file] ;;
  setHistoryIndex 0 ;;
  setEditHotspot None ;;
  setDisplayHotspot None ;;
  setActiveTab retouch ;;
  setCrop None ;;
  setCompletedCrop None.

Definition quotaMessage : string :=
  "It looks like the AI is a bit busy right now (quota exceeded). Please wait a few moments and try your edit again.".

Definition rawErrorMessage (err : Thrown) : string :=
  match err with
  | ErrorObj message => message
  | NonError => "An unknown error occurred."
  end.

(** The condition of the [if] in [handleApiError]. *)
Definition rateLimited (raw : string) : bool :=
  includes raw "429" || includes raw "RESOURCE_EXHAUSTED" || includes raw "quota".

Definition displayErrorMessage (err : Thrown) (context : string) : string :=
  let raw := rawErrorMessage err in
  if rateLimited raw then quotaMessage
  else "Failed to " +:+ context +:+ ". " +:+ raw.

Definition handleApiError (err : Thrown) (context : string) : Update :=
  setError (Some (displayErrorMessage err context)).

(** [res] is what fetching the demo image and wrapping it in a [File]
    delivers. *)
Definition handleDemoImageSelect (res : Outcome File) : Handler := fun r =>
  setIsLoading true ;;
  setError None ;;
  match res with
  | Resolved file => handleImageUpload file r
  | Rejected err => handleApiError err "load the demo image"
  end ;;
  setIsLoading false.

(** [res] is what the body of the [try] delivers up to [newImageFile]: the
    answer of the image service decoded by [dataURLtoFile], or the value
    thrown on the way. *)
Definition handleGenerate (res : Outcome File) : Handler := fun r =>
  match currentImage r with
  | None => setError (Some "No image loaded to edit.")
  | Some _ =>
      if negb (truthy (trim (prompt r))) then
        setError (Some "Please enter a description for your edit.")
      else
        match editHotspot r with
        | None => setError (Some "Please click on the image to select an area to edit.")
        | Some _ =>
            setIsLoading true ;;
            setError None ;;
            match res with
            | Resolved newImageFile =>
                addImageToHistory newImageFile r ;;
                setEditHotspot None ;;
                setDisplayHotspot None
            | Rejected err => handleApiError err "generate the image"
            end ;;
            setIsLoading false
        end
  end.

Definition handleApplyFilter (filterPrompt : string) (res : Outcome File) : Handler := fun r =>
  match currentImage r with
  | None => setError (Some "No image loaded to apply a filter to.")
  | Some _ =>
      setIsLoading true ;;
      setError None ;;
      match res with
      | Resolved newImageFile => addImageToHistory newImageFile r
      | Rejected err => handleApiError err "apply the filter"
      end ;;
      setIsLoading false
  end.

Definition handleApplyAdjustment (adjustmentPrompt : string) (res : Outcome File) : Handler := fun r =>
  match currentImage r with
  | None => setError (Some "No image loaded to apply an adjustment to.")
  | Some _ =>
      setIsLoading true ;;
      setError None ;;
      match res with
      | Resolved newImageFile => addImageToHistory newImageFile r
      | Rejected err => handleApiError err "apply the adjustment"
      end ;;
      setIsLoading false
  end.

(** What the browser gives [handleApplyCrop]: whether the image element is
    mounted ([imgRef.current]), whether the canvas hands out a 2d context,
    the PNG data URL the drawn canvas serialises to ([data:,] for a canvas
    without pixels), and [Date.now()] in decimal. *)
Record CropEnv := mkCropEnv {
  imgRef_current : bool;
  canvas_ctx : bool;
  canvas_toDataURL : string;
  crop_now : string
}.

Definition croppedName (env : CropEnv) : string :=
  "cropped-" +:+ crop_now env +:+ ".png".

(** [dataURLtoFile] is called outside any [try]: when it throws, the
    exception leaves the handler and no state is written. *)
Definition handleApplyCrop (env : CropEnv) : Handler := fun r =>
  match completedCrop r with
  | Some _ =>
      if imgRef_current env then
        if canvas_ctx env then
          match dataURLtoFile (canvas_toDataURL env) (croppedName env) with
          | Returned newImageFile => addImageToHistory newImageFile r
          | ThrowsError _ | ThrowsInvalidCharacter => skip
          end
        else setError (Some "Could not process the crop.")
      else setError (Some "Please select an area to crop.")
  | None => setError (Some "Please select an area to crop.")
  end.

Definition handleUndo : Handler := fun r =>
  if canUndo r then
    setHistoryIndex (historyIndex r - 1) ;;
    setEditHotspot None ;;
    setDisplayHotspot None
  else skip.

Definition handleRedo : Handler := fun r =>
  if canRedo r then
    setHistoryIndex (historyIndex r + 1) ;;
    setEditHotspot None ;;
    setDisplayHotspot None
  else skip.

Definition handleReset : Handler := fun r =>
  if 0 <? Z.of_nat (length (history r)) then
    setHistoryIndex 0 ;;
    setError None ;;
    setEditHotspot None ;;
    setDisplayHotspot None
  else skip.

Definition handleUploadNew : Handler := fun _ =>
  setHistory [] ;;
  setHistoryIndex (-1) ;;
  setError None ;;
  setPrompt "" ;;
  setEditHotspot None ;;
  setDisplayHotspot None.

(** JPEG quality of each export tier. *)
Definition qualityMap (q : ExportQuality) : Qc :=
  match q with
  | low => Q2Qc (1 # 2)
  | medium => Q2Qc (3 # 4)
  | high => Q2Qc (23 # 25)
  end.

(** What happens to the [Image] that [handleDownload] creates: it loads
    (and the canvas hands out a 2d context or not), or it fails to load. *)
Inductive ImageLoad :=
| onload (ctx : bool)
| onerror.

Definition handleDownload (ev : ImageLoad) : Handler := fun r =>
  match currentImage r with
  | None => skip
  | Some _ =>
      match ev with
      | onload true => skip
      | onload false => setError (Some "Could not prepare image for download.")
      | onerror => setError (Some "Could not prepare image for download.")
      end
  end.

Definition handleFileSelect (files : option (list File)) : Handler := fun r =>
  match files with
  | Some (file :: _) => handleImageUpload file r
  | _ => skip
  end.

(** The click on the image, with the coordinates already computed:
    [display] relative to the element, [edit] scaled to the natural size
    and rounded. *)
Definition handleImageClick (display edit : Point) : Handler := fun r =>
  match activeTab r with
  | retouch => setDisplayHotspot (Some display) ;; setEditHotspot (Some edit)
  | _ => skip
  end.

(** *** The history manager seen as six operations *)

Inductive Op :=
| reset (revision : File)
| commit (revision : File)
| undo
| redo
| restart
| clear.

Definition step (s : State) (o : Op) : State :=
  match o with
  | reset f => fire (handleImageUpload f) s
  | commit f => fire (addImageToHistory f) s
  | undo => fire handleUndo s
  | redo => fire handleRedo s
  | restart => fire handleReset s
  | clear => fire handleUploadNew s
  end.

Definition run (ops : list Op) (s : State) : State := fold_left step ops s.

(** The cursor invariant of the data model. *)
Definition cursor_ok (s : State) : Prop :=
  (history s <> [] -> 0 <= historyIndex s < Z.of_nat (length (history s))) /\
  (historyIndex s = -1 <-> history s = []).

(** *** Flows and their failures *)

(** A flow: one handler together with what its collaborator delivers. *)
Inductive Flow :=
| Retouch (res : Outcome File)
| Filter (filterPrompt : string) (res : Outcome File)
| Adjust (adjustmentPrompt : string) (res : Outcome File)
| CropFlow (env : CropEnv)
| Export (ev : ImageLoad)
| DemoImage (res : Outcome File).

Definition runFlow (f : Flow) (s : State) : State :=
  match f with
  | Retouch res => fire (handleGenerate res) s
  | Filter p res => fire (handleApplyFilter p res) s
  | Adjust p res => fire (handleApplyAdjustment p res) s
  | CropFlow env => fire (handleApplyCrop env) s
  | Export ev => fire (handleDownload ev) s
  | DemoImage res => fire (handleDemoImageSelect res) s
  end.

(** The error taxonomy, with three failures it does not name: the demo
    image that does not load, which goes through [handleApiError] like a
    failed transform; the crop whose data URL [dataURLtoFile] refuses; and
    the download asked for with no image loaded. *)
Inductive Failure :=
| NoImageLoaded
| MissingInput
| TransformFailed (isRateLimited : bool) (message : string)
| CropSelectionMissing
| CropProcessingFailed
| ExportPreparationFailed
| DemoImageFailed (message : string)
| CropDecodingThrew
| NothingToDownload.

Definition transformFailure (res : Outcome File) : option Failure :=
  match res with
  | Resolved _ => None
  | Rejected err => Some (TransformFailed (rateLimited (rawErrorMessage err)) (rawErrorMessage err))
  end.

(** Which failure, if any, a flow started in state [r] runs into. *)
Definition flowFailure (f : Flow) (r : State) : option Failure :=
  match f with
  | Retouch res =>
      match currentImage r with
      | None => Some NoImageLoaded
      | Some _ =>
          if truthy (trim (prompt r)) then
            match editHotspot r with
            | None => Some MissingInput
            | Some _ => transformFailure res
            end
          else Some MissingInput
      end
  | Filter _ res | Adjust _ res =>
      match currentImage r with
      | None => Some NoImageLoaded
      | Some _ => transformFailure res
      end
  | CropFlow env =>
      match completedCrop r with
      | None => Some CropSelectionMissing
      | Some _ =>
          if imgRef_current env then
            if canvas_ctx env then
              match dataURLtoFile (canvas_toDataURL env) (croppedName env) with
              | Returned _ => None
              | ThrowsError _ | ThrowsInvalidCharacter => Some CropDecodingThrew
              end
            else Some CropProcessingFailed
          else Some CropSelectionMissing
      end
  | Export ev =>
      match currentImage r with
      | None => Some NothingToDownload
      | Some _ =>
          match ev with
          | onload true => None
          | _ => Some ExportPreparationFailed
          end
      end
  | DemoImage res =>
      match res with
      | Resolved _ => None
      | Rejected err => Some (DemoImageFailed (rawErrorMessage err))
      end
  end.

(** *** Sample data *)

Definition imgA : File := mkFile "A.png" "image/png" [].
Definition imgB : File := mkFile "B.png" "image/png" [].
Definition imgC : File := mkFile "C.png" "image/png" [].
Definition imgD : File := mkFile "D.png" "image/png" [].

(** History [A, B, C] after two undos. *)
Definition undoneTwice : State :=
  setHistoryIndex 0 (setHistory [imgA; imgB; imgC] initialState).

(** A click on the image and a crop rectangle. *)
Definition clickDisplay : Point := mkPoint (Q2Qc (60 # 1)) (Q2Qc (40 # 1)).
Definition clickEdit : Point := mkPoint (Q2Qc (120 # 1)) (Q2Qc (80 # 1)).
Definition rectangle : Crop :=
  mkCrop (Q2Qc 0) (Q2Qc 0) (Q2Qc (50 # 1)) (Q2Qc (50 # 1)) px.

(** One image uploaded, a point clicked on the retouch tab, a prompt typed,
    then a crop rectangle drawn on the crop tab. *)
Definition focused : State :=
  setCompletedCrop (Some rectangle) (setCrop (Some rectangle)
    (setActiveTab crop_tab
      (setPrompt "make the sky blue"
        (fire (handleImageClick clickDisplay clickEdit)
          (fire (handleImageUpload imgA) initialState))))).

(** [A] uploaded and, on the crop tab, a selection fifty pixels wide and
    none high; the canvas drawn from it has no pixels. *)
Definition flatRectangle : Crop :=
  mkCrop (Q2Qc 0) (Q2Qc (10 # 1)) (Q2Qc (50 # 1)) (Q2Qc 0) px.
Definition flatSelection : State :=
  setCompletedCrop (Some flatRectangle) (setCrop (Some flatRectangle)
    (setActiveTab crop_tab (fire (handleImageUpload imgA) initialState))).
Definition emptyCanvas : CropEnv := mkCropEnv true true "data:," "1700000000000".


End App.

(** ** The asynchronous handlers, split at their [await] *)
Module Async.
Import Js App.
Local Open Scope update_scope.

(** The three transform handlers differ in their guards and messages. *)
Inductive Transform :=
| generate
| applyFilter (filterPrompt : string)
| applyAdjustment (adjustmentPrompt : string).

(** Up to the [await]: the guards, then the busy flag.  [false] tells that
    the handler returned at a guard. *)
Definition start (t : Transform) : State -> Update * bool := fun r =>
  match t with
  | generate =>
      match currentImage r with
      | None => (setError (Some "No image loaded to edit."), false)
      | Some _ =>
          if negb (truthy (trim (prompt r))) then
            (setError (Some "Please enter a description for your edit."), false)
          else
            match editHotspot r with
            | None =>
                (setError (Some "Please click on the image to select an area to edit."), false)
            | Some _ => (setIsLoading true ;; setError None, true)
            end
      end
  | applyFilter _ =>
      match currentImage r with
      | None => (setError (Some "No image loaded to apply a filter to."), false)
      | Some _ => (setIsLoading true ;; setError None, true)
      end
  | applyAdjustment _ =>
      match currentImage r with
      | None => (setError (Some "No image loaded to apply an adjustment to."), false)
      | Some _ => (setIsLoading true ;; setError None, true)
      end
  end.

(** After the [await]: the rest of [try], [catch] and [finally], still in
    the closure of the render [r] that started the handler. *)
Definition settle (t : Transform) (res : Outcome File) : Handler := fun r =>
  match res with
  | Resolved newImageFile =>
      match t with
      | generate =>
          addImageToHistory newImageFile r ;;
          setEditHotspot None ;;
          setDisplayHotspot None
      | _ => addImageToHistory newImageFile r
      end
  | Rejected err =>
      handleApiError err
        match t with
        | generate => "generate the image"
        | applyFilter _ => "apply the filter"
        | applyAdjustment _ => "apply the adjustment"
        end
  end ;;
  setIsLoading false.

(** The handler run without interruption. *)
Definition whole (t : Transform) (res : Outcome File) : Handler :=
  match t with
  | generate => handleGenerate res
  | applyFilter filterPrompt => handleApplyFilter filterPrompt res
  | applyAdjustment adjustmentPrompt => handleApplyAdjustment adjustmentPrompt res
  end.

(** What can happen to the component: an operation of the history manager
    fired on the current render, a transform started on the current render,
    or a transform started in the render [r] settling now. *)
Inductive Event :=
| operation (o : Op)
| started (t : Transform)
| settled (t : Transform) (res : Outcome File) (r : State).

Definition happen (s : State) (e : Event) : State :=
  match e with
  | operation o => step s o
  | started t => fst (start t s) s
  | settled t res r => settle t res r s
  end.

Definition happenAll (es : list Event) (s : State) : State := fold_left happen es s.

End Async.

(** ** Data URLs in the handlers *)
Module DataUrl.
Import Js App.

(** The body of a handler's [try] up to [newImageFile]: the answer of the
    image service decoded by [dataURLtoFile].  [invalidCharacter] is the
    message the browser gives the exception of [atob]. *)
Definition decodeAnswer (invalidCharacter : string) (answer : Outcome string)
    (filename : string) : Outcome File :=
  match answer with
  | Rejected err => Rejected err
  | Resolved url =>
      match dataURLtoFile url filename with
      | Returned newImageFile => Resolved newImageFile
      | ThrowsError message => Rejected (ErrorObj message)
      | ThrowsInvalidCharacter => Rejected (ErrorObj invalidCharacter)
      end
  end.

(** A MIME type as the header of a data URL can carry it: no semicolon, no
    comma, no line terminator of one byte or of three. *)
Definition plainMime (mime : string) : bool :=
  forallb (fun c => negb (Ascii.eqb c ";") && negb (Ascii.eqb c ",") &&
                    negb (is_line_terminator c))
    (list_ascii_of_string mime)
  && negb (includes mime lineSeparator)
  && negb (includes mime paragraphSeparator).

(** What each transform handler tells [handleApiError] it was doing. *)
Definition contextOf (t : Async.Transform) : string :=
  match t with
  | Async.generate => "generate the image"
  | Async.applyFilter _ => "apply the filter"
  | Async.applyAdjustment _ => "apply the adjustment"
  end.

End DataUrl.

(** ** The name of a downloaded file *)
Module Download.
Import Js App.

Definition tierName (q : ExportQuality) : string :=
  match q with low => "low" | medium => "medium" | high => "high" end.

(** [link.download] of [handleDownload]; [stamp] is [Date.now()] in
    decimal. *)
Definition downloadName (name stamp : string) (q : ExportQuality) : string :=
  let stem := substring name 0 (lastIndexOf name ".") in
  let originalName := if truthy stem then stem else "edited-" +:+ stamp in
  originalName +:+ "-quality-" +:+ tierName q +:+ ".jpeg".

End Download.

(** ** Object URLs of the displayed images *)
Module View.
Import App.

(** The browser's store of object URLs: the live ones, the next fresh one,
    and the log of [revokeObjectURL] calls, latest first. *)
Record BlobStore := mkBlobStore {
  live : gset nat;
  next : nat;
  revoked : list nat
}.

Definition createObjectURL (b : BlobStore) : nat * BlobStore :=
  (next b, mkBlobStore ({[next b]} ∪ live b) (S (next b)) (revoked b)).

Definition revokeObjectURL (url : nat) (b : BlobStore) : BlobStore :=
  mkBlobStore (live b ∖ {[url]}) (next b) (url :: revoked b).

(** One [useEffect] with its URL state cell: the URL its pending cleanup
    will revoke, and the value of the cell. *)
Record Effect := mkEffect {
  cleanup : option nat;
  imageUrl : option nat
}.

Definition runCleanup (e : Effect) (b : BlobStore) : BlobStore :=
  match cleanup e with
  | Some url => revokeObjectURL url b
  | None => b
  end.

(** The effect re-runs for a new image: the previous cleanup first, then
    the body. *)
Definition runEffect (image : option File) (e : Effect) (b : BlobStore) : Effect * BlobStore :=
  let b := runCleanup e b in
  match image with
  | Some _ =>
      let '(url, b) := createObjectURL b in
      (mkEffect (Some url) (Some url), b)
  | None => (mkEffect None None, b)
  end.

(** Both effects of the component and the store they share. *)
Record Views := mkViews {
  blobs : BlobStore;
  currentEffect : Effect;
  originalEffect : Effect
}.

Definition mounted : Views :=
  mkViews (mkBlobStore ∅ 0 []) (mkEffect None None) (mkEffect None None).

Inductive Change :=
| currentImageChanged (image : option File)
| originalImageChanged (image : option File).

Definition react (v : Views) (c : Change) : Views :=
  match c with
  | currentImageChanged image =>
      let '(e, b) := runEffect image (currentEffect v) (blobs v) in
      mkViews b e (originalEffect v)
  | originalImageChanged image =>
      let '(e, b) := runEffect image (originalEffect v) (blobs v) in
      mkViews b (currentEffect v) e
  end.

Definition reactAll (cs : list Change) (v : Views) : Views := fold_left react cs v.

(** Unmounting runs the pending cleanups. *)
Definition unmount (v : Views) : Views :=
  let b := runCleanup (currentEffect v) (blobs v) in
  let b := runCleanup (originalEffect v) b in
  mkViews b (mkEffect None (imageUrl (currentEffect v)))
    (mkEffect None (imageUrl (originalEffect v))).

(** The URLs a pending cleanup will revoke. *)
Definition pending (e : Effect) : gset nat :=
  match cleanup e with Some url => {[url]} | None => ∅ end.

(** The store and the effects agree: the live URLs are those awaiting a
    cleanup, one per role at most and distinct, each shown in its state
    cell; every URL handed out so far is live or has been revoked, once, and
    no revoked URL is live. *)
Definition tidy (v : Views) : Prop :=
  live (blobs v) = pending (currentEffect v) ∪ pending (originalEffect v) /\
  pending (currentEffect v) ## pending (originalEffect v) /\
  imageUrl (currentEffect v) = cleanup (currentEffect v) /\
  imageUrl (originalEffect v) = cleanup (originalEffect v) /\
  NoDup (revoked (blobs v)) /\
  (forall url, url ∈ live (blobs v) -> (url < next (blobs v))%nat) /\
  (forall url, (url < next (blobs v))%nat ->
     url ∈ live (blobs v) \/ url ∈ revoked (blobs v)) /\
  (forall url, url ∈ revoked (blobs v) ->
     (url < next (blobs v))%nat /\ url ∉ live (blobs v)).

(** The image each role displays after a list of changes, starting from
    [shown]: the image of the last change of that role. *)
Definition currentShown (cs : list Change) (shown : option File) : option File :=
  fold_left (fun shown c =>
               match c with
               | currentImageChanged image => image
               | originalImageChanged _ => shown
               end) cs shown.

Definition originalShown (cs : list Change) (shown : option File) : option File :=
  fold_left (fun shown c =>
               match c with
               | originalImageChanged image => image
               | currentImageChanged _ => shown
               end) cs shown.

(** A session: [A] uploaded, one commit [B], an undo, then Upload New. *)
Definition changes : list Change :=
  [currentImageChanged (Some imgA); originalImageChanged (Some imgA);
   currentImageChanged (Some imgB); currentImageChanged (Some imgA);
   currentImageChanged None; originalImageChanged None].

End View.

(** ** What is rendered *)
Module Render.
Import Js App.

Inductive Screen :=
| LoadingDemo
| ErrorPanel (message : string)
| StartScreen
| Editor.

(** [renderContent], by the screen it returns. *)
Definition renderContent (s : State) (currentImageUrl : option nat) : Screen :=
  if isLoading s && negb (bool_decide (is_Some currentImageUrl)) then LoadingDemo
  else
    let editorOrStart :=
      match currentImageUrl with
      | None => StartScreen
      | Some _ => Editor
      end in
    match error s with
    | Some message => if truthy message then ErrorPanel message else editorOrStart
    | None => editorOrStart
    end.

(** The [disabled] attribute of the buttons of the editor. *)
Definition generateDisabled (s : State) : bool :=
  isLoading s || negb (truthy (trim (prompt s))) || negb (bool_decide (is_Some (editHotspot s))).
Definition undoDisabled (s : State) : bool := negb (canUndo s).
Definition redoDisabled (s : State) : bool := negb (canRedo s).
Definition resetDisabled (s : State) : bool := negb (canUndo s).

End Render.


(** ** Sequences of operations *)
Module Sequences.
Import Js App.

(** The operations that edit or navigate an existing history: all but
    [reset] and [clear]. *)
Definition edits (o : Op) : bool :=
  match o with
  | reset _ | clear => false
  | commit _ | undo | redo | restart => true
  end.

(** The Undo button pressed [n] times. *)
Definition undoTimes (n : nat) (s : State) : State :=
  Nat.iter n (fire handleUndo) s.

(** A short editing session on [A]. *)
Definition session : list Op := [commit imgB; undo; commit imgC; restart; redo].

(** [A, B, C] with the cursor on [B]. *)
Definition midway : State :=
  run [reset imgA; commit imgB; commit imgC; undo] initialState.

(** [A] uploaded, and the empty state after Upload New. *)
Definition uploaded : State := step initialState (reset imgA).
Definition cleared : State := step uploaded clear.

(** The file an operation brings in, if any. *)
Definition given (o : Op) : list File :=
  match o with
  | reset revision | commit revision => [revision]
  | undo | redo | restart | clear => []
  end.

(** A crop of the focused image that goes through, and the file it
    gives. *)
Definition cropOk : CropEnv :=
  mkCropEnv true true "data:image/png;base64,aGk=" "1700000000000".
Definition imgCropped : File :=
  mkFile "cropped-1700000000000.png" "image/png" [Byte.x68; Byte.x69].

(** [A, B, C] with the cursor on [B], a point clicked and a prompt typed:
    Undo, Redo, Reset and Generate are enabled. *)
Definition editing : State :=
  setPrompt "make the sky blue"
    (fire (handleImageClick clickDisplay clickEdit) midway).

End Sequences.

(** ** Properties of the history manager *)

Import Js App Async DataUrl.

(** *** Facts about the built-ins *)

Lemma slice_from_zero {A} (l : list A) (e : Z) :
  0 <= e -> slice l 0 e = take (Z.to_nat e) l.
Proof.
  intros He. unfold slice. cbv zeta.
  replace (0 <? 0) with false by reflexivity.
  destruct (Z.ltb_spec e 0) as [Hlt|_]; [lia|].
  rewrite (Z.min_l 0) by lia.
  change (drop (Z.to_nat 0) l) with l. rewrite Z.sub_0_r.
  destruct (Z.le_gt_cases e (Z.of_nat (length l))) as [Hle|Hgt].
  - now rewrite Z.min_l by lia.
  - rewrite Z.min_r by lia. rewrite Nat2Z.id.
    rewrite !take_ge by lia. reflexivity.
Qed.


Lemma at_index_Some {A} (l : list A) (i : Z) (a : A) :
  at_index l i = Some a -> 0 <= i < Z.of_nat (length l).
Proof.
  unfold at_index. destruct (Z.ltb_spec i 0) as [|Hi]; [discriminate|].
  intros Hl. apply lookup_lt_Some in Hl. lia.
Qed.

Lemma at_index_None {A} (l : list A) (i : Z) :
  at_index l i = None -> i < 0 \/ Z.of_nat (length l) <= i.
Proof.
  unfold at_index. destruct (Z.ltb_spec i 0) as [|Hi]; [now left|].
  intros Hl. apply lookup_ge_None in Hl. right. lia.
Qed.

Lemma append_String (c : ascii) (s t : string) :
  String c s +:+ t = String c (s +:+ t).
Proof. reflexivity. Qed.

Lemma append_Empty (t : string) : EmptyString +:+ t = t.
Proof. reflexivity. Qed.

Lemma prefix_is_leading_part (sub s : string) :
  String.prefix sub s = true <-> exists post, s = sub +:+ post.
Proof.
  revert sub. induction s as [|d s IH]; intros [|c sub]; cbn [String.prefix].
  - split; [exists EmptyString; reflexivity | reflexivity].
  - split; [discriminate | intros [post H]; rewrite append_String in H; discriminate].
  - split; [eexists; reflexivity | reflexivity].
  - destruct (ascii_dec c d) as [->|Hne].
    + rewrite IH. split; intros [post H]; exists post;
        rewrite append_String in *; congruence.
    + split; [discriminate |].
      intros [post H]. rewrite append_String in H. congruence.
Qed.

(** [includes] is substring containment. *)
Lemma includes_is_substring (s sub : string) :
  includes s sub = true <-> exists pre post, s = pre +:+ sub +:+ post.
Proof.
  induction s as [|c s IH]; cbn [includes];
    rewrite orb_true_iff, prefix_is_leading_part.
  - split.
    + intros [[post H]|H]; [exists EmptyString, post; exact H | discriminate].
    + intros ([|c pre] & post & H).
      * left. exists post. exact H.
      * rewrite append_String in H. discriminate.
  - rewrite IH. split.
    + intros [[post H]|(pre & post & H)].
      * exists EmptyString, post. exact H.
      * exists (String c pre), post. rewrite append_String. now rewrite H.
    + intros ([|c' pre] & post & H).
      * left. exists post. exact H.
      * right. exists pre, post. rewrite append_String in H. congruence.
Qed.

(** *** What a commit writes *)

Lemma commit_fields (x : File) (s : State) :
  let s' := fire (addImageToHistory x) s in
  history s' = slice (history s) 0 (historyIndex s + 1) ++ [x] /\
  historyIndex s' = Z.of_nat (length (history s')) - 1 /\
  crop s' = None /\ completedCrop s' = None /\
  editHotspot s' = editHotspot s /\ displayHotspot s' = displayHotspot s /\
  error s' = error s /\ isLoading s' = isLoading s /\ prompt s' = prompt s.
Proof. cbv zeta. repeat split. Qed.

(** C1: in a state whose cursor [c] points into the history
    ([0 <= c < length]), committing [x] yields the revisions up to and
    including index [c] followed by [x], and the cursor becomes [c + 1], the
    index of the new last revision. *)
Theorem commit_truncates_then_appends (s : State) (x : File) :
  0 <= historyIndex s < Z.of_nat (length (history s)) ->
  let s' := fire (addImageToHistory x) s in
  history s' = take (S (Z.to_nat (historyIndex s))) (history s) ++ [x] /\
  historyIndex s' = historyIndex s + 1 /\
  historyIndex s' = Z.of_nat (length (history s')) - 1.
Proof.
  intros Hc s'.
  destruct (commit_fields x s) as (Hh & Hi & _). fold s' in Hh, Hi.
  rewrite slice_from_zero in Hh by lia.
  replace (Z.to_nat (historyIndex s + 1)) with (S (Z.to_nat (historyIndex s))) in Hh by lia.
  split; [exact Hh|]. split; [|exact Hi].
  rewrite Hi, Hh, length_app, length_take. cbn [length]. lia.
Qed.

(** The example of the specification: History=[A,B,C], cursor=0, commit(D)
    gives History=[A,D], cursor=1. *)
Lemma commit_after_two_undos :
  history (fire (addImageToHistory imgD) undoneTwice) = [imgA; imgD] /\
  historyIndex (fire (addImageToHistory imgD) undoneTwice) = 1.
Proof.
  destruct (commit_truncates_then_appends undoneTwice imgD) as (Hh & Hi & _).
  - cbn. lia.
  - split; [rewrite Hh | rewrite Hi]; reflexivity.
Defined.

(** *** The cursor invariant *)

Lemma cursor_ok_intro (s : State) :
  (history s = [] /\ historyIndex s = -1) \/
  0 <= historyIndex s < Z.of_nat (length (history s)) ->
  cursor_ok s.
Proof.
  intros [[Hh Hi]|Hc]; unfold cursor_ok.
  - rewrite Hh, Hi. split; [congruence | tauto].
  - split; [tauto|]. split; intros H.
    + lia.
    + rewrite H in Hc. cbn in Hc. lia.
Qed.

Lemma cursor_ok_cases (s : State) :
  cursor_ok s ->
  (history s = [] /\ historyIndex s = -1) \/
  0 <= historyIndex s < Z.of_nat (length (history s)).
Proof.
  intros [Hne Hiff]. destruct (history s) as [|r rs] eqn:Hh.
  - left. split; [reflexivity | now apply Hiff].
  - right. apply Hne. discriminate.
Qed.

Lemma cursor_ok_initial : cursor_ok initialState.
Proof. apply cursor_ok_intro. left. split; reflexivity. Qed.

Lemma commit_preserves_cursor_ok (x : File) (s : State) :
  cursor_ok s -> cursor_ok (fire (addImageToHistory x) s).
Proof.
  intros _. apply cursor_ok_intro. right.
  destruct (commit_fields x s) as (Hh & Hi & _).
  rewrite Hi, Hh, length_app. cbn [length]. lia.
Qed.

Lemma step_preserves_cursor_ok (s : State) (o : Op) :
  cursor_ok s -> cursor_ok (step s o).
Proof.
  intros Hs. destruct o as [f|f| | | |]; cbn [step].
  - apply cursor_ok_intro. right. cbn. lia.
  - now apply commit_preserves_cursor_ok.
  - apply cursor_ok_cases in Hs. apply cursor_ok_intro.
    unfold fire, handleUndo, canUndo.
    destruct (Z.ltb_spec 0 (historyIndex s)); cbn; [right; lia | exact Hs].
  - apply cursor_ok_cases in Hs. apply cursor_ok_intro.
    unfold fire, handleRedo, canRedo.
    destruct (Z.ltb_spec (historyIndex s) (Z.of_nat (length (history s)) - 1));
      cbn; [right; lia | exact Hs].
  - apply cursor_ok_cases in Hs. apply cursor_ok_intro.
    unfold fire, handleReset.
    destruct (Z.ltb_spec 0 (Z.of_nat (length (history s))));
      cbn; [right; lia | exact Hs].
  - apply cursor_ok_intro. left. split; reflexivity.
Qed.

Lemma run_preserves_cursor_ok (ops : list Op) (s : State) :
  cursor_ok s -> cursor_ok (run ops s).
Proof.
  revert s. induction ops as [|o ops IH]; intros s Hs; cbn.
  - exact Hs.
  - apply IH. now apply step_preserves_cursor_ok.
Qed.

(** The end-to-end scenario: upload I0, commit I1, commit I2, undo, commit
    I3 leaves History [I0, I1, I3] with nothing to redo. *)
Example upload_commit_undo_commit :
  let s := run [reset imgA; commit imgB; commit imgC; undo] initialState in
  let s' := step s (commit imgD) in
  currentImage s = Some imgB /\
  history s' = [imgA; imgB; imgD] /\ canRedo s' = false.
Proof. cbv zeta. repeat split. Qed.

(** C2: after any sequence of reset, commit, undo, redo, restart and clear
    starting from the initial empty state, [0 <= cursor < length(History)]
    whenever History is non-empty, and [cursor = -1] exactly when History is
    empty. *)
Theorem cursor_invariant (ops : list Op) :
  let s := run ops initialState in
  (history s <> [] -> 0 <= historyIndex s < Z.of_nat (length (history s))) /\
  (historyIndex s = -1 <-> history s = []).
Proof. exact (run_preserves_cursor_ok ops initialState cursor_ok_initial). Qed.

(** *** Navigation *)

Lemma undo_when_possible (s : State) :
  0 < historyIndex s ->
  fire handleUndo s =
  setDisplayHotspot None (setEditHotspot None (setHistoryIndex (historyIndex s - 1) s)).
Proof.
  intros H. unfold fire, handleUndo, canUndo.
  destruct (Z.ltb_spec 0 (historyIndex s)); [reflexivity | lia].
Qed.

Lemma undo_when_impossible (s : State) :
  historyIndex s <= 0 -> fire handleUndo s = s.
Proof.
  intros H. unfold fire, handleUndo, canUndo.
  destruct (Z.ltb_spec 0 (historyIndex s)); [lia | reflexivity].
Qed.

Lemma redo_when_possible (s : State) :
  historyIndex s < Z.of_nat (length (history s)) - 1 ->
  fire handleRedo s =
  setDisplayHotspot None (setEditHotspot None (setHistoryIndex (historyIndex s + 1) s)).
Proof.
  intros H. unfold fire, handleRedo, canRedo.
  destruct (Z.ltb_spec (historyIndex s) (Z.of_nat (length (history s)) - 1));
    [reflexivity | lia].
Qed.

Lemma redo_when_impossible (s : State) :
  Z.of_nat (length (history s)) - 1 <= historyIndex s -> fire handleRedo s = s.
Proof.
  intros H. unfold fire, handleRedo, canRedo.
  destruct (Z.ltb_spec (historyIndex s) (Z.of_nat (length (history s)) - 1));
    [lia | reflexivity].
Qed.

(** C3: undo changes nothing when [cursor <= 0] and otherwise moves the
    cursor back by exactly one and clears the focus point; redo changes
    nothing when [cursor >= length - 1] and otherwise moves the cursor
    forward by exactly one and clears the focus point; neither ever changes
    the History sequence. *)
Theorem undo_redo_move_only_the_cursor (s : State) :
  let u := fire handleUndo s in
  let r := fire handleRedo s in
  let len := Z.of_nat (length (history s)) in
  history u = history s /\
  history r = history s /\
  (historyIndex s <= 0 -> u = s) /\
  (0 < historyIndex s ->
     historyIndex u = historyIndex s - 1 /\
     editHotspot u = None /\ displayHotspot u = None) /\
  (historyIndex s >= len - 1 -> r = s) /\
  (historyIndex s < len - 1 ->
     historyIndex r = historyIndex s + 1 /\
     editHotspot r = None /\ displayHotspot r = None).
Proof.
  cbv zeta. repeat apply conj.
  - destruct (Z.le_gt_cases (historyIndex s) 0) as [H|H].
    + now rewrite undo_when_impossible.
    + rewrite undo_when_possible by lia. reflexivity.
  - destruct (Z.le_gt_cases (Z.of_nat (length (history s)) - 1) (historyIndex s)) as [H|H].
    + now rewrite redo_when_impossible.
    + rewrite redo_when_possible by lia. reflexivity.
  - apply undo_when_impossible.
  - intros H. rewrite undo_when_possible by lia. repeat split.
  - intros H. apply redo_when_impossible. lia.
  - intros H. rewrite redo_when_possible by lia. repeat split.
Qed.

(** *** Reset, clear and restart *)

(** C4: whatever the prior state, [reset(X)] (an upload) leaves the
    one-element History [[X]] with the cursor at 0 and no focus point. *)
Theorem reset_yields_single_revision (s : State) (X : File) :
  let s' := fire (handleImageUpload X) s in
  history s' = [X] /\ historyIndex s' = 0 /\
  editHotspot s' = None /\ displayHotspot s' = None.
Proof. cbv zeta. repeat split. Qed.

(** C5: whatever the prior state, [clear()] (upload new) leaves an empty
    History with the cursor at -1, an empty prompt and no focus point. *)
Theorem clear_empties_history (s : State) :
  let s' := fire handleUploadNew s in
  history s' = [] /\ historyIndex s' = -1 /\
  prompt s' = "" /\ editHotspot s' = None /\ displayHotspot s' = None.
Proof. cbv zeta. repeat split. Qed.

Lemma restart_when_nonempty (s : State) :
  history s <> [] ->
  fire handleReset s =
  setDisplayHotspot None (setEditHotspot None (setError None (setHistoryIndex 0 s))).
Proof.
  intros H. unfold fire, handleReset.
  destruct (history s) as [|r rs] eqn:Hh; [congruence | reflexivity].
Qed.

Lemma restart_when_empty (s : State) :
  history s = [] -> fire handleReset s = s.
Proof. intros H. unfold fire, handleReset. now rewrite H. Qed.

(** C6: with a non-empty History, [restart()] puts the cursor at 0, leaves
    the History sequence (hence its length) as it was, and clears the error
    and the focus point; with an empty History it changes nothing. *)
Theorem restart_rewinds_without_truncating (s : State) :
  let s' := fire handleReset s in
  (history s <> [] ->
     historyIndex s' = 0 /\ history s' = history s /\
     length (history s') = length (history s) /\
     error s' = None /\ editHotspot s' = None /\ displayHotspot s' = None) /\
  (history s = [] -> s' = s).
Proof.
  cbv zeta. split.
  - intros H. rewrite restart_when_nonempty by exact H. repeat split.
  - apply restart_when_empty.
Qed.

(** *** Transient state around a commit *)

Lemma commit_clears_crop_selection (x : File) (s : State) :
  crop (fire (addImageToHistory x) s) = None /\
  completedCrop (fire (addImageToHistory x) s) = None.
Proof. split; apply (commit_fields x s). Qed.

Lemma retouch_commit_clears_focus_point (x : File) (s : State) :
  flowFailure (Retouch (Resolved x)) s = None ->
  let s' := runFlow (Retouch (Resolved x)) s in
  history s' = history (fire (addImageToHistory x) s) /\
  crop s' = None /\ completedCrop s' = None /\
  editHotspot s' = None /\ displayHotspot s' = None.
Proof.
  cbn [flowFailure runFlow]. unfold fire, handleGenerate.
  destruct (currentImage s); [|discriminate].
  destruct (truthy (trim (prompt s))); [|discriminate].
  destruct (editHotspot s); [|discriminate].
  intros _. cbv zeta. repeat split.
Qed.

Lemma whole_image_commit_keeps_focus_point (f : Flow) (s : State) :
  match f with Filter _ _ | Adjust _ _ | CropFlow _ => True | _ => False end ->
  flowFailure f s = None ->
  let s' := runFlow f s in
  crop s' = None /\ completedCrop s' = None /\
  editHotspot s' = editHotspot s /\ displayHotspot s' = displayHotspot s.
Proof.
  destruct f as [res|p res|p res|env|ev|res]; intros Hf; try contradiction;
    cbn [flowFailure runFlow];
    unfold fire, handleApplyFilter, handleApplyAdjustment, handleApplyCrop.
  - destruct (currentImage s); [|discriminate].
    destruct res; [|discriminate]. intros _. cbv zeta. repeat split.
  - destruct (currentImage s); [|discriminate].
    destruct res; [|discriminate]. intros _. cbv zeta. repeat split.
  - destruct (completedCrop s); [|discriminate].
    destruct (imgRef_current env); [|discriminate].
    destruct (canvas_ctx env); [|discriminate].
    destruct (dataURLtoFile (canvas_toDataURL env) (croppedName env)); try discriminate.
    intros _. cbv zeta. repeat split.
Qed.

(** C7, at a concrete state: one image loaded, a focus point clicked, a crop
    rectangle drawn.  A successful adjustment commits the new revision and
    clears the crop selection, yet the focus point stays set. *)
Theorem adjustment_commit_keeps_focus_point :
  let s' := fire (handleApplyAdjustment "Warmer Lighting" (Resolved imgB)) focused in
  history s' = [imgA; imgB] /\ historyIndex s' = 1 /\
  crop s' = None /\ completedCrop s' = None /\
  editHotspot s' = Some clickEdit /\
  displayHotspot s' = Some clickDisplay.
Proof. cbv zeta. repeat split. Qed.

(** *** Failing flows *)

Lemma api_error_fields (err : Thrown) (context : string) (s : State) :
  let s' := handleApiError err context s in
  error s' = Some (displayErrorMessage err context) /\
  history s' = history s /\ historyIndex s' = historyIndex s /\
  isLoading s' = isLoading s.
Proof. cbv zeta. repeat split. Qed.

Ltac close_reported :=
  split; [eexists; reflexivity | repeat split; auto].

(** The failures a handler reports: all but the crop that throws and the
    download with nothing to download.  They set the error and leave
    History and cursor alone, and the busy flag is not left set. *)
Lemma reported_failure_fields (f : Flow) (s : State) (k : Failure) :
  flowFailure f s = Some k ->
  k <> CropDecodingThrew -> k <> NothingToDownload ->
  (exists message, error (runFlow f s) = Some message) /\
  history (runFlow f s) = history s /\
  historyIndex (runFlow f s) = historyIndex s /\
  (isLoading s = false -> isLoading (runFlow f s) = false).
Proof.
  intros Hk Hcrop Hdown.
  destruct f as [res|p res|p res|env|ev|res];
    cbn [flowFailure runFlow] in *;
    unfold fire, handleGenerate, handleApplyFilter, handleApplyAdjustment,
      handleApplyCrop, handleDownload, handleDemoImageSelect, transformFailure in *.
  - destruct (currentImage s); [|close_reported].
    destruct (truthy (trim (prompt s))); [|close_reported].
    destruct (editHotspot s); [|close_reported].
    destruct res; [discriminate|]. close_reported.
  - destruct (currentImage s); [|close_reported].
    destruct res; [discriminate|]. close_reported.
  - destruct (currentImage s); [|close_reported].
    destruct res; [discriminate|]. close_reported.
  - destruct (completedCrop s); [|close_reported].
    destruct (imgRef_current env); [|close_reported].
    destruct (canvas_ctx env); [|close_reported].
    destruct (dataURLtoFile (canvas_toDataURL env) (croppedName env));
      [discriminate | congruence | congruence].
  - destruct (currentImage s); [|congruence].
    destruct ev as [[|]|]; [discriminate| |]; close_reported.
  - destruct res; [discriminate|]. close_reported.
Qed.

(** The two failures no handler reports change nothing at all. *)
Lemma unreported_failure_changes_nothing (f : Flow) (s : State) (k : Failure) :
  flowFailure f s = Some k ->
  k = CropDecodingThrew \/ k = NothingToDownload ->
  runFlow f s = s.
Proof.
  intros Hk Hu.
  destruct f as [res|p res|p res|env|ev|res];
    cbn [flowFailure runFlow] in *;
    unfold fire, handleApplyCrop, handleDownload, transformFailure in *.
  - destruct (currentImage s); [|destruct Hu; congruence].
    destruct (truthy (trim (prompt s))); [|destruct Hu; congruence].
    destruct (editHotspot s); [|destruct Hu; congruence].
    destruct res; [discriminate | destruct Hu; congruence].
  - destruct (currentImage s); [|destruct Hu; congruence].
    destruct res; [discriminate | destruct Hu; congruence].
  - destruct (currentImage s); [|destruct Hu; congruence].
    destruct res; [discriminate | destruct Hu; congruence].
  - destruct (completedCrop s); [|destruct Hu; congruence].
    destruct (imgRef_current env); [|destruct Hu; congruence].
    destruct (canvas_ctx env); [|destruct Hu; congruence].
    destruct (dataURLtoFile (canvas_toDataURL env) (croppedName env));
      [discriminate | reflexivity | reflexivity].
  - destruct (currentImage s); [|reflexivity].
    destruct ev as [[|]|]; [discriminate | |]; destruct Hu; congruence.
  - destruct res; [discriminate | destruct Hu; congruence].
Qed.

(** A flow without failure does its work: the four flows that produce an
    image commit it, the demo image is uploaded. *)
Lemma flow_without_failure_commits (f : Flow) (s : State) :
  flowFailure f s = None ->
  match f with
  | Export _ => runFlow f s = s
  | DemoImage _ => exists file, history (runFlow f s) = [file]
  | _ => exists newImageFile,
           history (runFlow f s) = history (fire (addImageToHistory newImageFile) s)
  end.
Proof.
  intros Hk.
  destruct f as [res|p res|p res|env|ev|res];
    cbn [flowFailure runFlow] in *;
    unfold fire, handleGenerate, handleApplyFilter, handleApplyAdjustment,
      handleApplyCrop, handleDownload, handleDemoImageSelect, transformFailure in *.
  - destruct (currentImage s); [|discriminate].
    destruct (truthy (trim (prompt s))); [|discriminate].
    destruct (editHotspot s); [|discriminate].
    destruct res as [x|]; [|discriminate]. exists x. reflexivity.
  - destruct (currentImage s); [|discriminate].
    destruct res as [x|]; [|discriminate]. exists x. reflexivity.
  - destruct (currentImage s); [|discriminate].
    destruct res as [x|]; [|discriminate]. exists x. reflexivity.
  - destruct (completedCrop s); [|discriminate].
    destruct (imgRef_current env); [|discriminate].
    destruct (canvas_ctx env); [|discriminate].
    destruct (dataURLtoFile (canvas_toDataURL env) (croppedName env)) as [x| |];
      [|discriminate|discriminate]. exists x. reflexivity.
  - destruct (currentImage s); [|discriminate].
    destruct ev as [[|]|]; [reflexivity | discriminate | discriminate].
  - destruct res as [x|]; [|discriminate]. exists x. reflexivity.
Qed.

(** A retouch whose transform is rejected by the service, on the state with
    one image, a prompt and a focus point. *)
Example rejected_retouch_leaves_history_untouched :
  let s' := runFlow (Retouch (Rejected (ErrorObj "503 Service Unavailable"))) focused in
  error s' = Some "Failed to generate the image. 503 Service Unavailable" /\
  history s' = [imgA] /\ historyIndex s' = 0 /\ isLoading s' = false.
Proof. cbv zeta. repeat split. Qed.

(** C8, at a concrete state: [A] is loaded and a selection without height
    has been drawn, so the canvas has no pixels and serialises to [data:,].
    Applying the crop fails, [dataURLtoFile] throwing on that URL, and the
    failure is not reported: the state is exactly as before, the error
    still empty.  The same URL answered to a filter is caught and
    reported. *)
Theorem flat_crop_fails_without_an_error :
  let s' := runFlow (CropFlow emptyCanvas) flatSelection in
  currentImage flatSelection = Some imgA /\
  completedCrop flatSelection = Some flatRectangle /\
  dataURLtoFile (canvas_toDataURL emptyCanvas) (croppedName emptyCanvas) =
    ThrowsError "Could not parse MIME type from data URL" /\
  flowFailure (CropFlow emptyCanvas) flatSelection = Some CropDecodingThrew /\
  s' = flatSelection /\ error s' = None /\
  history s' = [imgA] /\ historyIndex s' = 0 /\
  error (fire (handleApplyFilter "Synthwave"
                 (decodeAnswer "The string to be decoded is not correctly encoded."
                    (Resolved "data:,") "filtered-1700000000000.png"))
           flatSelection) =
    Some "Failed to apply the filter. Could not parse MIME type from data URL".
Proof. cbv zeta. repeat split. Qed.

(** *** Classification of API failures *)

Lemma other_message_is_not_quotaMessage (context raw : string) :
  "Failed to " +:+ context +:+ ". " +:+ raw <> quotaMessage.
Proof. cbn. discriminate. Qed.

Lemma rateLimited_markers (raw : string) :
  rateLimited raw = true <->
  includes raw "429" = true \/ includes raw "RESOURCE_EXHAUSTED" = true \/
  includes raw "quota" = true.
Proof.
  unfold rateLimited. rewrite !orb_true_iff. tauto.
Qed.

(** C9, refuted as stated: the message "RESOURCE_EXHAUSTED" contains neither
    "429" nor "quota", yet it is classified as rate-limited and surfaced as
    the quota-exceeded message. *)
Lemma resource_exhausted_is_rate_limited :
  let err := ErrorObj "RESOURCE_EXHAUSTED" in
  includes (rawErrorMessage err) "429" = false /\
  includes (rawErrorMessage err) "quota" = false /\
  rateLimited (rawErrorMessage err) = true /\
  error (handleApiError err "apply the filter" initialState) = Some quotaMessage.
Proof. cbv zeta. repeat split. Qed.

(** C9, amended: a failure whose message contains "429", "RESOURCE_EXHAUSTED"
    or "quota" is classified as rate-limited and surfaced as the
    quota-exceeded message; a failure whose message contains none of the
    three is classified as other and surfaced as
    "Failed to <context>. <message>", which is never the quota-exceeded
    message. *)
Theorem api_error_classification (err : Thrown) (context : string) (s : State) :
  let raw := rawErrorMessage err in
  let shown := error (handleApiError err context s) in
  (includes raw "429" = true \/ includes raw "RESOURCE_EXHAUSTED" = true \/
   includes raw "quota" = true ->
     rateLimited raw = true /\ shown = Some quotaMessage) /\
  (includes raw "429" = false /\ includes raw "RESOURCE_EXHAUSTED" = false /\
   includes raw "quota" = false ->
     rateLimited raw = false /\
     shown = Some ("Failed to " +:+ context +:+ ". " +:+ raw) /\
     shown <> Some quotaMessage).
Proof.
  cbv zeta. split.
  - intros H. apply rateLimited_markers in H. split; [exact H|].
    cbn [handleApiError setError error]. unfold displayErrorMessage.
    now rewrite H.
  - intros (H1 & H2 & H3).
    assert (H : rateLimited (rawErrorMessage err) = false).
    { unfold rateLimited. now rewrite H1, H2, H3. }
    split; [exact H|].
    cbn [handleApiError setError error]. unfold displayErrorMessage. rewrite H.
    split; [reflexivity|].
    intros E.
    apply (other_message_is_not_quotaMessage context (rawErrorMessage err)).
    congruence.
Qed.

(** *** Commit on the empty state *)





(** ** Further properties *)

Import Sequences Async.

(** *** The displayed image *)

Lemma at_index_last {A} (l : list A) (a : A) :
  at_index (l ++ [a]) (Z.of_nat (length (l ++ [a])) - 1) = Some a.
Proof.
  unfold at_index. rewrite length_app. cbn [length].
  destruct (Z.ltb_spec (Z.of_nat (length l + 1) - 1) 0) as [H|_]; [lia|].
  replace (Z.to_nat (Z.of_nat (length l + 1) - 1)) with (length l) by lia.
  rewrite lookup_app_r by lia. now rewrite Nat.sub_diag.
Qed.

(** X1: whatever render [r] a commit was created in and whatever state [s]
    it writes to, afterwards the committed file is the current image and
    there is nothing to redo. *)
Theorem commit_shows_the_committed_image (x : File) (r s : State) :
  let s' := addImageToHistory x r s in
  currentImage s' = Some x /\ canRedo s' = false /\
  history s' <> [] /\ cursor_ok s'.
Proof.
  cbv zeta.
  set (H := slice (history r) 0 (historyIndex r + 1)).
  assert (Hh : history (addImageToHistory x r s) = H ++ [x]) by reflexivity.
  assert (Hi : historyIndex (addImageToHistory x r s) = Z.of_nat (length (H ++ [x])) - 1)
    by reflexivity.
  split; [|split; [|split]].
  - unfold currentImage. rewrite Hh, Hi. apply at_index_last.
  - unfold canRedo. rewrite Hh, Hi. apply Z.ltb_irrefl.
  - rewrite Hh. now destruct H.
  - apply cursor_ok_intro. right. rewrite Hh, Hi, length_app. cbn [length]. lia.
Qed.

Lemma at_index_in_range {A} (l : list A) (i : Z) :
  0 <= i < Z.of_nat (length l) -> exists a, at_index l i = Some a.
Proof.
  intros Hi. unfold at_index.
  destruct (Z.ltb_spec i 0) as [|_]; [lia|].
  destruct (lookup_lt_is_Some_2 l (Z.to_nat i)) as [a Ha]; [lia|]. eauto.
Qed.

Lemma images_present_iff (s : State) :
  cursor_ok s ->
  (currentImage s = None <-> history s = []) /\
  (originalImage s = None <-> history s = []).
Proof.
  intros Hs. apply cursor_ok_cases in Hs as [[Hh Hi]|Hc].
  - unfold currentImage, originalImage. rewrite Hh, Hi. now split.
  - assert (Hne : history s <> []).
    { intros E. rewrite E in Hc. cbn in Hc. lia. }
    destruct (at_index_in_range (history s) (historyIndex s) Hc) as [a Ha].
    destruct (at_index_in_range (history s) 0 ltac:(lia)) as [b Hb].
    unfold currentImage, originalImage. rewrite Ha, Hb.
    split; split; intros; congruence.
Qed.

(** X2: in every state reached from the first render by reset, commit,
    undo, redo, restart and clear, there is a current image exactly when the
    History is non-empty, and likewise an original image; so the "No image
    loaded" guards of the transform handlers fire exactly on the empty
    History. *)
Theorem image_present_iff_history_nonempty (ops : list Op) :
  let s := run ops initialState in
  (currentImage s = None <-> history s = []) /\
  (originalImage s = None <-> history s = []).
Proof.
  apply images_present_iff, run_preserves_cursor_ok, cursor_ok_initial.
Qed.

Lemma navigation_keeps_history (s : State) :
  history (fire handleUndo s) = history s /\
  history (fire handleRedo s) = history s.
Proof.
  split.
  - destruct (Z.le_gt_cases (historyIndex s) 0) as [H|H].
    + now rewrite undo_when_impossible.
    + rewrite undo_when_possible by lia. reflexivity.
  - destruct (Z.le_gt_cases (Z.of_nat (length (history s)) - 1) (historyIndex s)) as [H|H].
    + now rewrite redo_when_impossible.
    + rewrite redo_when_possible by lia. reflexivity.
Qed.

(** *** The original image *)

Lemma slice_keeps_head {A} (a : A) (l : list A) (e : Z) :
  0 < e -> exists t, slice (a :: l) 0 e = a :: t.
Proof.
  intros He. rewrite slice_from_zero by lia.
  destruct (Z.to_nat e) as [|n] eqn:E; [lia|]. cbn. eauto.
Qed.

Lemma edit_keeps_original (X : File) (o : Op) (s : State) :
  edits o = true ->
  cursor_ok s /\ originalImage s = Some X ->
  cursor_ok (step s o) /\ originalImage (step s o) = Some X.
Proof.
  intros Ho [Hs HX]. split; [now apply step_preserves_cursor_ok|].
  assert (Hh : exists t, history s = X :: t).
  { unfold originalImage, at_index in HX. cbn in HX.
    destruct (history s) as [|a t]; [discriminate|]. cbn in HX.
    injection HX as ->. eauto. }
  destruct Hh as [t Hh].
  destruct o as [f|f| | | |]; try discriminate; cbn [step].
  - apply cursor_ok_cases in Hs as [[E _]|Hc]; [congruence|].
    destruct (commit_fields f s) as (Hf & _).
    rewrite Hh in Hf.
    destruct (slice_keeps_head X t (historyIndex s + 1)) as [t' Ht']; [lia|].
    rewrite Ht' in Hf. unfold originalImage. now rewrite Hf.
  - unfold originalImage.
    destruct (navigation_keeps_history s) as [-> _]. exact HX.
  - unfold originalImage.
    destruct (navigation_keeps_history s) as [_ ->]. exact HX.
  - unfold originalImage. rewrite restart_when_nonempty by congruence. exact HX.
Qed.

(** X3: once an image [X] has been uploaded, no sequence of commits, undos,
    redos and restarts changes the original image: it stays [X], the
    History stays non-empty, and the cursor stays inside it. *)
Theorem original_image_survives_edits (X : File) (ops : list Op) (s : State) :
  forallb edits ops = true ->
  let s' := run ops (step s (reset X)) in
  originalImage s' = Some X /\ history s' <> [] /\
  0 <= historyIndex s' < Z.of_nat (length (history s')).
Proof.
  intros Hops.
  assert (H0 : cursor_ok (step s (reset X)) /\ originalImage (step s (reset X)) = Some X).
  { split; [|reflexivity]. apply cursor_ok_intro. right. cbn. lia. }
  revert H0. generalize (step s (reset X)). clear s.
  induction ops as [|o ops IH]; intros s [Hs HX]; cbn in Hops |- *.
  - assert (Hne : history s <> []).
    { intros E. unfold originalImage in HX. rewrite E in HX. discriminate. }
    split; [exact HX|]. split; [exact Hne|]. now apply Hs.
  - apply andb_true_iff in Hops as [Ho Hops].
    apply (IH Hops). now apply edit_keeps_original.
Qed.

(** After uploading [A] over the state [A, B, C]: commit, undo, commit,
    restart, redo. *)
Lemma original_image_survives_a_session :
  let s' := run session (step midway (reset imgA)) in
  originalImage s' = Some imgA /\ history s' <> [] /\
  0 <= historyIndex s' < Z.of_nat (length (history s')).
Proof. exact (original_image_survives_edits imgA session midway eq_refl). Defined.

(** *** Undo and redo as inverses *)

(** X4: with the cursor inside the History, an undo that is possible is
    reverted by the next redo, and a redo that is possible is reverted by
    the next undo: History, cursor and current image are back as they
    were. *)
Theorem undo_and_redo_are_inverse (s : State) :
  0 <= historyIndex s < Z.of_nat (length (history s)) ->
  (canUndo s = true ->
     let s' := fire handleRedo (fire handleUndo s) in
     history s' = history s /\ historyIndex s' = historyIndex s /\
     currentImage s' = currentImage s) /\
  (canRedo s = true ->
     let s' := fire handleUndo (fire handleRedo s) in
     history s' = history s /\ historyIndex s' = historyIndex s /\
     currentImage s' = currentImage s).
Proof.
  intros Hc. unfold canUndo, canRedo. split; intros H; cbv zeta.
  - apply Z.ltb_lt in H.
    rewrite (undo_when_possible s) by lia.
    rewrite redo_when_possible by (cbn; lia).
    unfold currentImage. cbn. replace (historyIndex s - 1 + 1) with (historyIndex s) by lia.
    repeat split.
  - apply Z.ltb_lt in H.
    rewrite (redo_when_possible s) by lia.
    rewrite undo_when_possible by (cbn; lia).
    unfold currentImage. cbn. replace (historyIndex s + 1 - 1) with (historyIndex s) by lia.
    repeat split.
Qed.

(** On [A, B, C] with the cursor on [B], where both are possible. *)
Lemma undo_and_redo_are_inverse_midway :
  historyIndex (fire handleRedo (fire handleUndo midway)) = 1 /\
  historyIndex (fire handleUndo (fire handleRedo midway)) = 1.
Proof.
  destruct (undo_and_redo_are_inverse midway) as [Hu Hr]; [now vm_compute|].
  destruct (Hu eq_refl) as (_ & Hu' & _). destruct (Hr eq_refl) as (_ & Hr' & _).
  split; [rewrite Hu' | rewrite Hr']; reflexivity.
Defined.

(** *** Undo down to the original *)

Lemma undoTimes_fields (n : nat) (s : State) :
  0 <= historyIndex s ->
  history (undoTimes n s) = history s /\
  historyIndex (undoTimes n s) = Z.max 0 (historyIndex s - Z.of_nat n).
Proof.
  intros Hi. induction n as [|n [IHh IHi]].
  - cbn. split; [reflexivity | lia].
  - change (undoTimes (S n) s) with (fire handleUndo (undoTimes n s)).
    destruct (Z.le_gt_cases (historyIndex (undoTimes n s)) 0) as [H|H].
    + rewrite undo_when_impossible by exact H. split; [exact IHh | lia].
    + rewrite undo_when_possible by lia. cbn. split; [exact IHh | lia].
Qed.

(** X5: pressing Undo at least as many times as the cursor is high ends on
    the first revision, where further undos change nothing; History and
    cursor are then those that Reset gives, and the image shown is the
    original. *)
Theorem enough_undos_reach_the_original (n : nat) (s : State) :
  0 <= historyIndex s < Z.of_nat (length (history s)) ->
  historyIndex s <= Z.of_nat n ->
  let s' := undoTimes n s in
  history s' = history (fire handleReset s) /\
  historyIndex s' = historyIndex (fire handleReset s) /\
  historyIndex s' = 0 /\
  currentImage s' = originalImage s /\
  fire handleUndo s' = s'.
Proof.
  intros Hc Hn s'.
  destruct (undoTimes_fields n s ltac:(lia)) as [Hh Hi]. fold s' in Hh, Hi.
  assert (Hne : history s <> []).
  { intros E. rewrite E in Hc. cbn in Hc. lia. }
  rewrite restart_when_nonempty by exact Hne. cbn.
  assert (H0 : historyIndex s' = 0) by lia.
  split; [exact Hh|]. split; [exact H0|]. split; [exact H0|].
  split.
  - unfold currentImage, originalImage. now rewrite Hh, H0.
  - apply undo_when_impossible. lia.
Qed.

(** Two undos from [A, B, C] with the cursor on [B]. *)
Lemma two_undos_reach_the_original :
  historyIndex (undoTimes 2 midway) = 0 /\
  currentImage (undoTimes 2 midway) = Some imgA.
Proof.
  destruct (enough_undos_reach_the_original 2 midway) as (_ & _ & H0 & Hc & _);
    [now vm_compute | now vm_compute |].
  split; [exact H0 | rewrite Hc; reflexivity].
Defined.

(** *** Auxiliary facts about a commit *)

Lemma commit_in_range (s : State) (x : File) :
  0 <= historyIndex s < Z.of_nat (length (history s)) ->
  history (fire (addImageToHistory x) s) =
    take (S (Z.to_nat (historyIndex s))) (history s) ++ [x] /\
  historyIndex (fire (addImageToHistory x) s) = historyIndex s + 1.
Proof.
  intros Hc. destruct (commit_fields x s) as (Hh & Hi & _).
  rewrite slice_from_zero in Hh by lia.
  replace (Z.to_nat (historyIndex s + 1)) with (S (Z.to_nat (historyIndex s))) in Hh by lia.
  split; [exact Hh|].
  rewrite Hi, Hh, length_app, length_take. cbn [length]. lia.
Qed.

Lemma commit_current_image (x : File) (r s : State) :
  currentImage (addImageToHistory x r s) = Some x /\
  canRedo (addImageToHistory x r s) = false.
Proof.
  set (H := slice (history r) 0 (historyIndex r + 1)).
  assert (Hh : history (addImageToHistory x r s) = H ++ [x]) by reflexivity.
  assert (Hi : historyIndex (addImageToHistory x r s) = Z.of_nat (length (H ++ [x])) - 1)
    by reflexivity.
  split.
  - unfold currentImage. rewrite Hh, Hi. apply at_index_last.
  - unfold canRedo. rewrite Hh, Hi. apply Z.ltb_irrefl.
Qed.

(** *** Transforms, started and settled *)

(** A handler that runs without interruption is its part before the
    [await] followed, when no guard stopped it, by its part after. *)
Lemma whole_is_start_then_settle (t : Transform) (res : Outcome File) (s : State) :
  fire (whole t res) s =
  let '(u, awaits) := start t s in
  if awaits then settle t res s (u s) else u s.
Proof.
  destruct t as [|p|p]; unfold fire, whole, start, settle,
    handleGenerate, handleApplyFilter, handleApplyAdjustment.
  - destruct (currentImage s); [|reflexivity].
    destruct (truthy (trim (prompt s))); [|reflexivity].
    destruct (editHotspot s); [|reflexivity].
    destruct res; reflexivity.
  - destruct (currentImage s); [|reflexivity]. destruct res; reflexivity.
  - destruct (currentImage s); [|reflexivity]. destruct res; reflexivity.
Qed.

Lemma settle_resolved_fields (t : Transform) (x : File) (r s : State) :
  let s' := settle t (Resolved x) r s in
  history s' = history (addImageToHistory x r s) /\
  historyIndex s' = historyIndex (addImageToHistory x r s) /\
  isLoading s' = false /\ error s' = error s /\
  crop s' = None /\ completedCrop s' = None.
Proof. destruct t; cbv zeta; repeat split. Qed.

Lemma settle_rejected_fields (t : Transform) (err : Thrown) (r s : State) :
  let s' := settle t (Rejected err) r s in
  history s' = history s /\ historyIndex s' = historyIndex s /\
  isLoading s' = false /\ (exists message, error s' = Some message).
Proof. destruct t; cbv zeta; repeat split; eexists; reflexivity. Qed.

(** X6: a transform that passes its guards and whose service answers with
    an image ends with that image committed right after the revision the
    cursor was on, shown as the current image, with the error cleared, the
    busy flag down and nothing to redo. *)
Theorem successful_transform_commits (t : Transform) (x : File) (s : State) :
  snd (start t s) = true ->
  let s' := fire (whole t (Resolved x)) s in
  history s' = take (S (Z.to_nat (historyIndex s))) (history s) ++ [x] /\
  historyIndex s' = historyIndex s + 1 /\
  currentImage s' = Some x /\ canRedo s' = false /\
  error s' = None /\ isLoading s' = false.
Proof.
  intros Hstart s'.
  assert (Hcur : exists c, currentImage s = Some c).
  { destruct t; cbn in Hstart; destruct (currentImage s); eauto; discriminate. }
  destruct Hcur as [c Hcur]. apply at_index_Some in Hcur.
  pose proof (whole_is_start_then_settle t (Resolved x) s) as Hw. fold s' in Hw.
  destruct (start t s) as [u awaits] eqn:Hs. cbn in Hstart. subst awaits.
  assert (Hu : u = (fun s0 => setError None (setIsLoading true s0))).
  { destruct t; cbn in Hs;
      repeat match type of Hs with
             | context [match ?d with _ => _ end] => destruct d; try discriminate
             end; now injection Hs as <-. }
  destruct (commit_in_range s x Hcur) as (Hh & Hi).
  destruct (commit_current_image x s (u s)) as (Hc & Hr).
  destruct (settle_resolved_fields t x s (u s)) as (H1 & H2 & H3 & H4 & _).
  rewrite <- Hw in H1, H2, H3, H4.
  assert (Ha : history (addImageToHistory x s (u s)) = history (fire (addImageToHistory x) s))
    by reflexivity.
  assert (Hb : historyIndex (addImageToHistory x s (u s)) = historyIndex (fire (addImageToHistory x) s))
    by reflexivity.
  split; [now rewrite H1, Ha|]. split; [now rewrite H2, Hb|].
  split; [unfold currentImage in *; now rewrite H1, H2|].
  split; [unfold canRedo in *; now rewrite H1, H2|].
  split; [rewrite H4, Hu; reflexivity | exact H3].
Qed.

(** A retouch of [A] at the clicked point, answered with [B]. *)
Lemma successful_retouch_commits :
  let s' := fire (whole generate (Resolved imgB)) focused in
  history s' = [imgA; imgB] /\ historyIndex s' = 1 /\
  currentImage s' = Some imgB /\ error s' = None /\ isLoading s' = false.
Proof.
  destruct (successful_transform_commits generate imgB focused eq_refl)
    as (Hh & Hi & Hc & _ & He & Hl).
  cbv zeta. rewrite Hh, Hi. repeat split; assumption.
Defined.

(** *** Responses that arrive late *)

(** X7: when the answer of the service arrives, the commit is computed from
    the render [r] that started the transform: History becomes the
    revisions of [r] up to its cursor followed by the new image, whatever
    happened to the state [s] in between (undo, another commit, a new
    upload, Upload New). *)
Theorem late_response_commits_onto_its_own_render
    (t : Transform) (x : File) (r s : State) :
  0 <= historyIndex r < Z.of_nat (length (history r)) ->
  let s' := settle t (Resolved x) r s in
  history s' = take (S (Z.to_nat (historyIndex r))) (history r) ++ [x] /\
  historyIndex s' = historyIndex r + 1 /\
  currentImage s' = Some x /\
  isLoading s' = false.
Proof.
  intros Hc s'.
  destruct (settle_resolved_fields t x r s) as (H1 & H2 & H3 & _). fold s' in H1, H2, H3.
  destruct (commit_in_range r x Hc) as (Hh & Hi).
  destruct (commit_current_image x r s) as (Hcur & _).
  assert (Ha : history (addImageToHistory x r s) = history (fire (addImageToHistory x) r))
    by reflexivity.
  assert (Hb : historyIndex (addImageToHistory x r s) = historyIndex (fire (addImageToHistory x) r))
    by reflexivity.
  split; [now rewrite H1, Ha|]. split; [now rewrite H2, Hb|].
  split; [unfold currentImage in *; now rewrite H1, H2 | exact H3].
Qed.

(** A filter is started on [A]; the user presses Upload New; then the
    answer [B] arrives: the emptied History becomes [A, B]. *)
Lemma late_response_after_upload_new :
  history cleared = [] /\
  history (settle (applyFilter "Synthwave") (Resolved imgB) uploaded cleared) = [imgA; imgB] /\
  historyIndex (settle (applyFilter "Synthwave") (Resolved imgB) uploaded cleared) = 1.
Proof.
  destruct (late_response_commits_onto_its_own_render
              (applyFilter "Synthwave") imgB uploaded cleared) as (Hh & Hi & _).
  - now vm_compute.
  - split; [reflexivity|]. split; [rewrite Hh | rewrite Hi]; reflexivity.
Defined.

Lemma happen_preserves_cursor_ok (s : State) (e : Event) :
  cursor_ok s -> cursor_ok (happen s e).
Proof.
  intros Hs. destruct e as [o|t|t res r]; cbn [happen].
  - now apply step_preserves_cursor_ok.
  - assert (H : history (fst (start t s) s) = history s /\
                historyIndex (fst (start t s) s) = historyIndex s).
    { destruct t; cbn; destruct (currentImage s); try (split; reflexivity);
        destruct (truthy (trim (prompt s))); try (split; reflexivity);
        destruct (editHotspot s); split; reflexivity. }
    destruct H as [Hh Hi]. unfold cursor_ok. now rewrite Hh, Hi.
  - destruct res as [x|err].
    + destruct (settle_resolved_fields t x r s) as (Hh & Hi & _).
      pose proof (commit_preserves_cursor_ok x r) as Hc.
      assert (Hr : cursor_ok (fire (addImageToHistory x) r)).
      { apply cursor_ok_intro. right.
        destruct (commit_fields x r) as (H1 & H2 & _).
        rewrite H2, H1, length_app. cbn [length]. lia. }
      unfold cursor_ok in *. rewrite Hh, Hi. exact Hr.
    + destruct (settle_rejected_fields t err r s) as (Hh & Hi & _).
      unfold cursor_ok. now rewrite Hh, Hi.
Qed.

(** X8: the cursor invariant survives late responses: after any sequence
    of operations, started transforms and settled transforms, each settling
    in the closure of an arbitrary render, the cursor is inside a non-empty
    History, and it is -1 exactly when the History is empty. *)
Theorem cursor_invariant_with_late_responses (es : list Event) :
  let s := happenAll es initialState in
  (history s <> [] -> 0 <= historyIndex s < Z.of_nat (length (history s))) /\
  (historyIndex s = -1 <-> history s = []).
Proof.
  cbv zeta. change (cursor_ok (happenAll es initialState)).
  generalize cursor_ok_initial. generalize initialState.
  induction es as [|e es IH]; intros s Hs; cbn.
  - exact Hs.
  - apply IH. now apply happen_preserves_cursor_ok.
Qed.

(** *** The prompt guard *)

Lemma all_white_space_of_one_byte (s : string) :
  forallb is_white_space (list_ascii_of_string s) = true -> all_white_space s = true.
Proof.
  induction s as [|a s IH]; [reflexivity|].
  cbn [list_ascii_of_string forallb all_white_space]. intros H.
  apply andb_true_iff in H as [-> H]. now apply IH.
Qed.

(** What [trimStart] leaves is empty or does not start with white space. *)
Lemma trimStart_cases (n : nat) (s : string) :
  (String.length s <= n)%nat ->
  (trimStart s = EmptyString <-> all_white_space s = true) /\
  (trimStart s = EmptyString \/ all_white_space (trimStart s) = false).
Proof.
  revert s. induction n as [|n IH]; intros s Hn.
  - destruct s; [|cbn in Hn; lia]. cbn. split; [tauto | now left].
  - destruct s as [|a s1]; [cbn; split; [tauto | now left]|].
    cbn [trimStart all_white_space]. cbn [String.length] in Hn.
    destruct (is_white_space a) eqn:Ea; [apply IH; lia|].
    destruct s1 as [|b s2].
    { split; [split; discriminate|]. right. cbn. now rewrite Ea. }
    cbn [String.length] in Hn.
    destruct (is_white_space2 a b) eqn:Eb; [apply IH; lia|].
    destruct s2 as [|c s3].
    { split; [split; discriminate|]. right. cbn. now rewrite Ea, Eb. }
    cbn [String.length] in Hn.
    destruct (is_white_space3 a b c) eqn:Ec; [apply IH; lia|].
    split; [split; discriminate|]. right. cbn. now rewrite Ea, Eb, Ec.
Qed.

Lemma trimEnd_empty_iff (s : string) :
  trimEnd s = EmptyString <-> all_white_space s = true.
Proof.
  destruct s as [|a s1]; [cbn; tauto|].
  cbn [trimEnd]. destruct (all_white_space (String a s1)); split; congruence.
Qed.

(** [trim] leaves nothing exactly of the texts made of white space and
    line terminators only. *)
Lemma trim_empty_iff (s : string) :
  trim s = EmptyString <-> all_white_space s = true.
Proof.
  unfold trim. rewrite trimEnd_empty_iff.
  destruct (trimStart_cases (String.length s) s (le_n _)) as [Hiff Hcases].
  rewrite <- Hiff. split.
  - intros H. destruct Hcases as [E|E]; [exact E | congruence].
  - intros ->. reflexivity.
Qed.

(** The guard of [handleGenerate] on the prompt, without [trim]. *)
Lemma prompt_guard (s : string) :
  truthy (trim s) = negb (all_white_space s).
Proof.
  destruct (all_white_space s) eqn:E.
  - apply trim_empty_iff in E. now rewrite E.
  - destruct (trim s) eqn:T; [|reflexivity].
    apply trim_empty_iff in T. congruence.
Qed.

(** A retouch reaches the image service exactly when an image is loaded,
    the prompt holds more than white space, and a point was clicked. *)
Lemma retouch_reaches_the_service_iff (s : State) :
  snd (start generate s) = true <->
  currentImage s <> None /\ all_white_space (prompt s) = false /\ editHotspot s <> None.
Proof.
  cbn [start]. rewrite prompt_guard.
  destruct (currentImage s), (all_white_space (prompt s)), (editHotspot s); cbn;
    split; try discriminate; try (intros (H1 & H2 & H3); congruence);
    intros _; repeat split; discriminate.
Qed.

(** A prompt made of a no-break space, an ideographic space and a byte
    order mark is refused like an empty one. *)
Example no_break_space_prompt_is_refused :
  let blank := String (ascii_of_N 194) (String (ascii_of_N 160)
                 (String (ascii_of_N 227) (String (ascii_of_N 128) (String (ascii_of_N 128)
                   (String (ascii_of_N 239) (String (ascii_of_N 187)
                      (String (ascii_of_N 191) EmptyString))))))) in
  trim blank = EmptyString /\
  snd (start generate (setPrompt blank focused)) = false /\
  fire (handleGenerate (Resolved imgB)) (setPrompt blank focused) =
    setError (Some "Please enter a description for your edit.") (setPrompt blank focused).
Proof. cbv zeta. repeat split. Qed.

(** X9: with an image loaded, a retouch whose prompt is empty or made of
    white space only never reaches the image service: the only thing it
    changes is the error, set to the request for a description, whatever
    the service would have answered; History, cursor, focus point and busy
    flag are untouched. *)
Theorem blank_prompt_is_rejected (res : Outcome File) (s : State) :
  currentImage s <> None ->
  forallb is_white_space (list_ascii_of_string (prompt s)) = true ->
  fire (handleGenerate res) s =
    setError (Some "Please enter a description for your edit.") s.
Proof.
  intros Hc Hp. apply all_white_space_of_one_byte, trim_empty_iff in Hp.
  unfold fire, handleGenerate. destruct (currentImage s); [|congruence].
  now rewrite Hp.
Qed.

(** A prompt of two spaces and a tab on the focused image. *)
Lemma blank_prompt_on_focused_image :
  let s := setPrompt (String " " (String " " (String (ascii_of_N 9) EmptyString))) focused in
  error (fire (handleGenerate (Resolved imgB)) s) =
    Some "Please enter a description for your edit." /\
  history (fire (handleGenerate (Resolved imgB)) s) = [imgA].
Proof.
  cbv zeta.
  rewrite blank_prompt_is_rejected; [split; reflexivity | discriminate | reflexivity].
Defined.

(** *** Wrapped error messages *)

Lemma append_assoc (a b c : string) : (a +:+ b) +:+ c = a +:+ b +:+ c.
Proof.
  induction a as [|x a IH]; [reflexivity|].
  rewrite !append_String. now rewrite IH.
Qed.

Lemma includes_within (pre post s sub : string) :
  includes s sub = true -> includes (pre +:+ s +:+ post) sub = true.
Proof.
  rewrite !includes_is_substring. intros (a & b & ->).
  exists (pre +:+ a), (b +:+ post).
  now rewrite !append_assoc.
Qed.

(** X10: the rate-limit classification looks at the message as a whole: a
    message classified as rate-limited stays so when it is wrapped in more
    text, and is then surfaced as the quota-exceeded message. *)
Theorem rate_limit_survives_wrapping (pre post raw context : string) (s : State) :
  rateLimited raw = true ->
  rateLimited (pre +:+ raw +:+ post) = true /\
  error (handleApiError (ErrorObj (pre +:+ raw +:+ post)) context s) = Some quotaMessage.
Proof.
  intros H.
  assert (Hw : rateLimited (pre +:+ raw +:+ post) = true).
  { apply rateLimited_markers in H. apply rateLimited_markers.
    destruct H as [H|[H|H]]; [left | right; left | right; right];
      now apply includes_within. }
  split; [exact Hw|].
  cbn [handleApiError setError error]. unfold displayErrorMessage.
  cbn [rawErrorMessage]. now rewrite Hw.
Qed.

(** The service's 429 wrapped by the transport layer. *)
Lemma wrapped_429_is_rate_limited :
  error (handleApiError
           (ErrorObj ("[GoogleGenerativeAI Error]: " +:+ "429 Too Many Requests" +:+ " (retry later)"))
           "apply the filter" initialState) = Some quotaMessage.
Proof.
  apply (rate_limit_survives_wrapping "[GoogleGenerativeAI Error]: " " (retry later)"
           "429 Too Many Requests" "apply the filter" initialState).
  reflexivity.
Defined.

(** ** Properties of [dataURLtoFile] *)

Import DataUrl.

(** *** Splitting at a character *)

Lemma includes_char (c d : ascii) (s : string) :
  includes (String d s) (String c EmptyString) =
  Ascii.eqb c d || includes s (String c EmptyString).
Proof.
  cbn [includes String.prefix].
  destruct (ascii_dec c d) as [->|Hne].
  - rewrite Ascii.eqb_refl. now destruct s.
  - apply Ascii.eqb_neq in Hne. now rewrite Hne.
Qed.

Lemma includes_char_nil (c : ascii) : includes EmptyString (String c EmptyString) = false.
Proof. reflexivity. Qed.

Lemma split_nonempty (sep : ascii) (s : string) : split sep s <> [].
Proof.
  destruct s as [|c s]; cbn; [discriminate|].
  destruct (Ascii.eqb c sep); [discriminate|].
  destruct (split sep s); discriminate.
Qed.

Lemma split_without_separator (sep : ascii) (s : string) :
  includes s (String sep EmptyString) = false -> split sep s = [s].
Proof.
  induction s as [|c s IH]; [reflexivity|].
  rewrite includes_char. intros H. apply orb_false_iff in H as [Hc Hs].
  cbn [split]. rewrite Ascii.eqb_sym, Hc. now rewrite (IH Hs).
Qed.

Lemma split_app (sep : ascii) (a b : string) :
  split sep (a +:+ String sep b) = split sep a ++ split sep b.
Proof.
  induction a as [|c a IH].
  - rewrite append_Empty. cbn [split]. now rewrite Ascii.eqb_refl.
  - rewrite append_String. cbn [split]. rewrite IH.
    destruct (Ascii.eqb c sep); [reflexivity|].
    destruct (split sep a) as [|p ps] eqn:E; [now apply split_nonempty in E|].
    reflexivity.
Qed.

Lemma split_with_separator (sep : ascii) (s : string) :
  includes s (String sep EmptyString) = true ->
  exists header rest,
    s = header +:+ String sep rest /\
    includes header (String sep EmptyString) = false.
Proof.
  induction s as [|c s IH]; [discriminate|].
  rewrite includes_char. intros H.
  destruct (Ascii.eqb sep c) eqn:E.
  - apply Ascii.eqb_eq in E as <-. exists EmptyString, s. split; reflexivity.
  - cbn in H. destruct (IH H) as (header & rest & -> & Hh).
    exists (String c header), rest. split; [reflexivity|].
    rewrite includes_char, E. exact Hh.
Qed.

Lemma split_at_first (sep : ascii) (header rest : string) :
  includes header (String sep EmptyString) = false ->
  exists payload pieces,
    split sep (header +:+ String sep rest) = header :: payload :: pieces /\
    split sep rest = payload :: pieces.
Proof.
  intros H. rewrite split_app, (split_without_separator sep header H).
  destruct (split sep rest) as [|payload pieces] eqn:E; [now apply split_nonempty in E|].
  exists payload, pieces. split; reflexivity.
Qed.

(** X11: [dataURLtoFile] throws "Invalid data URL" exactly for the strings
    that hold no comma. *)
Theorem invalid_data_url_iff_no_comma (dataurl filename : string) :
  dataURLtoFile dataurl filename = ThrowsError "Invalid data URL" <->
  includes dataurl "," = false.
Proof.
  split.
  - intros H. destruct (includes dataurl ",") eqn:E; [|reflexivity].
    destruct (split_with_separator _ _ E) as (header & rest & -> & Hh).
    destruct (split_at_first "," header rest Hh) as (payload & pieces & Hs & _).
    unfold dataURLtoFile in H. rewrite Hs in H.
    destruct (mimeMatch header) as [mime|]; [|discriminate].
    destruct (truthy mime); [|discriminate].
    destruct (atob payload); discriminate.
  - intros H. unfold dataURLtoFile. now rewrite (split_without_separator _ _ H).
Qed.

(** *** The header *)

Lemma plainMime_parts (mime : string) :
  plainMime mime = true ->
  forallb (fun c => negb (Ascii.eqb c ";") && negb (Ascii.eqb c ",") &&
                    negb (is_line_terminator c))
    (list_ascii_of_string mime) = true /\
  includes mime lineSeparator = false /\
  includes mime paragraphSeparator = false.
Proof.
  unfold plainMime. intros H.
  apply andb_true_iff in H as [H Hp]. apply andb_true_iff in H as [H Hl].
  apply negb_true_iff in Hp, Hl. now repeat split.
Qed.

(** A needle without semicolon that starts [m] followed by a semicolon
    starts [m]. *)
Lemma prefix_before_semicolon (needle m rest : string) :
  forallb (fun c => negb (Ascii.eqb c ";")) (list_ascii_of_string needle) = true ->
  String.prefix needle (m +:+ String ";" rest) = String.prefix needle m.
Proof.
  revert m. induction needle as [|x needle IH]; intros m H.
  - now destruct m.
  - cbn [list_ascii_of_string forallb] in H. apply andb_true_iff in H as [Hx H].
    apply negb_true_iff, Ascii.eqb_neq in Hx.
    destruct m as [|y m].
    + rewrite append_Empty. cbn [String.prefix].
      now destruct (ascii_dec x ";").
    + rewrite append_String. cbn [String.prefix].
      destruct (ascii_dec x y); [now apply IH | reflexivity].
Qed.

Lemma lazyUntilSemicolon_plain (mime rest : string) :
  plainMime mime = true ->
  lazyUntilSemicolon (mime +:+ String ";" rest) = Some mime.
Proof.
  intros H. apply plainMime_parts in H as (Hc & Hl & Hp).
  induction mime as [|c mime IH].
  - rewrite append_Empty. reflexivity.
  - cbn [list_ascii_of_string forallb] in Hc.
    apply andb_true_iff in Hc as [Hc Hrest].
    apply andb_true_iff in Hc as [Hc Ht]. apply andb_true_iff in Hc as [Hs _].
    apply negb_true_iff in Hs, Ht.
    cbn [includes] in Hl, Hp.
    apply orb_false_iff in Hl as [Hl Hl'], Hp as [Hp Hp'].
    assert (Hat : at_line_terminator (String c mime +:+ String ";" rest) = false).
    { rewrite append_String. cbn [at_line_terminator]. rewrite <- append_String.
      rewrite !prefix_before_semicolon by reflexivity.
      now rewrite Ht, Hl, Hp. }
    rewrite append_String in Hat |- *. cbn [lazyUntilSemicolon].
    rewrite Hs, Hat. now rewrite (IH Hrest Hl' Hp').
Qed.

Lemma mimeMatch_data_header (mime rest : string) :
  plainMime mime = true ->
  mimeMatch ("data:" +:+ mime +:+ String ";" rest) = Some mime.
Proof.
  intros H.
  change ("data:" +:+ mime +:+ String ";" rest)
    with (String "d" (String "a" (String "t" (String "a"
            (String ":" (mime +:+ String ";" rest)))))).
  cbn [mimeMatch Ascii.eqb Bool.eqb].
  now rewrite (lazyUntilSemicolon_plain mime rest H).
Qed.

Lemma no_semicolon_no_match (header : string) :
  includes header ";" = false ->
  lazyUntilSemicolon header = None /\ mimeMatch header = None.
Proof.
  induction header as [|c header IH]; [now split|].
  rewrite includes_char. intros H. apply orb_false_iff in H as [Hc Hh].
  destruct (IH Hh) as [Hl Hm]. rewrite Ascii.eqb_sym in Hc.
  cbn [lazyUntilSemicolon mimeMatch]. rewrite Hc, Hl, Hm.
  split; [now destruct (at_line_terminator (String c header))
         | now destruct (Ascii.eqb c ":")].
Qed.

Lemma plainMime_no_comma (mime : string) :
  plainMime mime = true -> includes mime "," = false.
Proof.
  intros H. apply plainMime_parts in H as (H & _).
  induction mime as [|c mime IH]; [reflexivity|].
  cbn [list_ascii_of_string forallb] in H.
  apply andb_true_iff in H as [Hc H].
  apply andb_true_iff in Hc as [Hc _]. apply andb_true_iff in Hc as [_ Hc].
  apply negb_true_iff in Hc.
  rewrite includes_char, Ascii.eqb_sym, Hc. now apply IH.
Qed.

(** A MIME type that holds a line separator is no match for the dot: the
    header is refused. *)
Example line_separator_in_mime_is_refused :
  dataURLtoFile ("data:image/" +:+ lineSeparator +:+ "png;base64,aGk=") "x.png" =
    ThrowsError "Could not parse MIME type from data URL" /\
  plainMime ("image/" +:+ lineSeparator +:+ "png") = false.
Proof. split; reflexivity. Qed.

(** *** The copy loop *)

Lemma get_is_lookup (s : string) (n : nat) :
  String.get n s = list_ascii_of_string s !! n.
Proof.
  revert n. induction s as [|c s IH]; intros [|n]; cbn; try reflexivity. apply IH.
Qed.

Lemma length_chars (s : string) :
  length (list_ascii_of_string s) = String.length s.
Proof. induction s as [|c s IH]; cbn; [reflexivity | now rewrite IH]. Qed.

Lemma copyCharCodes_prefix (bstr : string) (n : nat) (u8arr : list Byte.byte) :
  (n <= String.length bstr)%nat ->
  length u8arr = String.length bstr ->
  copyCharCodes bstr n u8arr =
    map byte_of_ascii (take n (list_ascii_of_string bstr)) ++ drop n u8arr.
Proof.
  revert u8arr. induction n as [|m IH]; intros u8arr Hn Hlen.
  - reflexivity.
  - cbn [copyCharCodes]. rewrite IH by (rewrite ?length_insert; lia).
    destruct (lookup_lt_is_Some_2 (list_ascii_of_string bstr) m) as [c Hc];
      [rewrite length_chars; lia|].
    unfold charCodeAt. rewrite get_is_lookup, Hc.
    rewrite (take_S_r _ _ _ Hc), map_app, <- app_assoc. f_equal. cbn [map app].
    rewrite drop_insert_ge by lia. rewrite Nat.sub_diag.
    destruct (drop m u8arr) as [|b rest] eqn:E.
    + apply (f_equal length) in E. rewrite length_drop in E. cbn in E. lia.
    + cbn. f_equal.
      change rest with (drop 1 (b :: rest)). rewrite <- E, drop_drop. f_equal. lia.
Qed.

Lemma copy_loop_result (bstr : string) :
  copyCharCodes bstr (String.length bstr) (replicate (String.length bstr) Byte.x00)
  = map byte_of_ascii (list_ascii_of_string bstr).
Proof.
  rewrite copyCharCodes_prefix by (rewrite ?length_replicate; lia).
  rewrite drop_ge by (rewrite length_replicate; lia).
  rewrite take_ge by (rewrite length_chars; lia).
  apply app_nil_r.
Qed.

(** X12: the countdown loop of [dataURLtoFile] fills every index of the
    byte array: the array it leaves holds, position by position, the
    character codes of the decoded string, and has its length. *)
Theorem copy_loop_copies_every_character (bstr : string) :
  let n := String.length bstr in
  let u8arr := copyCharCodes bstr n (replicate n Byte.x00) in
  u8arr = map byte_of_ascii (list_ascii_of_string bstr) /\
  length u8arr = n /\
  forall i, (i < n)%nat -> u8arr !! i = Some (charCodeAt bstr i).
Proof.
  cbv zeta.
  rewrite copy_loop_result. split; [reflexivity|]. split.
  - now rewrite length_map, length_chars.
  - intros i Hi. unfold charCodeAt. rewrite get_is_lookup, list_lookup_fmap.
    destruct (lookup_lt_is_Some_2 (list_ascii_of_string bstr) i) as [c Hc];
      [rewrite length_chars; lia|].
    now rewrite Hc.
Qed.

(** *** Results of decoding *)

Lemma truthy_nonempty (s : string) : s <> EmptyString -> truthy s = true.
Proof. destruct s; [congruence | reflexivity]. Qed.

(** X13: a data URL of the usual shape, [data:<mime>;base64,<payload>] with
    a non-empty MIME type and a payload that [atob] decodes, gives a [File]
    with the given name, the MIME type in lower case (dropped when it holds
    a character outside printable ASCII) and, byte for byte, the decoded
    payload. *)
Theorem usual_data_url_decodes (mime payload bstr filename : string) :
  mime <> EmptyString ->
  plainMime mime = true ->
  includes payload "," = false ->
  atob payload = Some bstr ->
  dataURLtoFile ("data:" +:+ mime +:+ ";base64," +:+ payload) filename =
    Returned (mkFile filename (blobType mime)
                (map byte_of_ascii (list_ascii_of_string bstr))).
Proof.
  intros Hne Hm Hp Ha.
  assert (Hh : includes ("data:" +:+ mime +:+ ";base64") "," = false).
  { change ("data:" +:+ mime +:+ ";base64")
      with (String "d" (String "a" (String "t" (String "a"
              (String ":" (mime +:+ ";base64")))))).
    rewrite !includes_char. cbn [Ascii.eqb Bool.eqb orb].
    apply plainMime_no_comma in Hm. revert Hm.
    clear. induction mime as [|c mime IH]; [reflexivity|].
    rewrite append_String, !includes_char. intros H.
    apply orb_false_iff in H as [Hc H]. rewrite Hc. now apply IH. }
  assert (E : "data:" +:+ mime +:+ ";base64," +:+ payload
              = ("data:" +:+ mime +:+ ";base64") +:+ String "," payload).
  { change (";base64," +:+ payload) with (";base64" +:+ String "," payload).
    now rewrite !append_assoc. }
  unfold dataURLtoFile. rewrite E, split_app.
  rewrite (split_without_separator _ _ Hh), (split_without_separator _ _ Hp).
  cbn [app].
  change (mime +:+ ";base64") with (mime +:+ String ";" "base64").
  rewrite (mimeMatch_data_header mime "base64" Hm), (truthy_nonempty mime Hne), Ha.
  now rewrite copy_loop_result.
Qed.

(** The two bytes "hi" as a PNG data URL. *)
Lemma png_data_url_decodes :
  dataURLtoFile "data:image/png;base64,aGk=" "edited-1700000000000.png" =
    Returned (mkFile "edited-1700000000000.png" "image/png" [Byte.x68; Byte.x69]).
Proof.
  apply (usual_data_url_decodes "image/png" "aGk=" "hi" "edited-1700000000000.png").
  - discriminate.
  - reflexivity.
  - reflexivity.
  - reflexivity.
Defined.

(** X14: when the text before the first comma holds no semicolon, as in the
    [data:,] a canvas without pixels serialises to, [dataURLtoFile] throws
    "Could not parse MIME type from data URL". *)
Theorem header_without_semicolon_is_rejected (header rest filename : string) :
  includes header "," = false ->
  includes header ";" = false ->
  dataURLtoFile (header +:+ String "," rest) filename =
    ThrowsError "Could not parse MIME type from data URL".
Proof.
  intros Hc Hs.
  destruct (split_at_first "," header rest Hc) as (payload & pieces & H & _).
  unfold dataURLtoFile. rewrite H.
  now destruct (no_semicolon_no_match header Hs) as [_ ->].
Qed.

(** The data URL of an empty canvas. *)
Lemma empty_canvas_url_is_rejected :
  dataURLtoFile "data:," "cropped-1700000000000.png" =
    ThrowsError "Could not parse MIME type from data URL".
Proof.
  apply (header_without_semicolon_is_rejected "data:" "" "cropped-1700000000000.png");
    reflexivity.
Defined.

(** X15: only the text between the first and the second comma is decoded:
    whatever follows a further comma is ignored. *)
Theorem text_after_second_comma_is_ignored (dataurl extra filename : string) :
  includes dataurl "," = true ->
  dataURLtoFile (dataurl +:+ String "," extra) filename =
  dataURLtoFile dataurl filename.
Proof.
  intros H.
  destruct (split_with_separator _ _ H) as (header & rest & -> & Hh).
  destruct (split_at_first "," header rest Hh) as (payload & pieces & Hs & Hr).
  unfold dataURLtoFile. rewrite split_app, Hs. reflexivity.
Qed.

(** A trailing piece after the payload. *)
Lemma trailing_piece_is_ignored :
  dataURLtoFile "data:image/png;base64,aGk=,junk" "x.png" =
  dataURLtoFile "data:image/png;base64,aGk=" "x.png".
Proof.
  apply (text_after_second_comma_is_ignored "data:image/png;base64,aGk=" "junk" "x.png").
  reflexivity.
Defined.

(** *** An answer that is no data URL *)

(** X16: when a transform has passed its guards and the service answers
    with a string that holds no comma, the handler reports
    "Failed to <what it was doing>. Invalid data URL", commits nothing and
    lowers the busy flag. *)
Theorem answer_without_comma_fails_the_transform
    (invalidCharacter url filename : string) (t : Transform) (s : State) :
  snd (start t s) = true ->
  includes url "," = false ->
  let s' := fire (whole t (decodeAnswer invalidCharacter (Resolved url) filename)) s in
  error s' = Some ("Failed to " +:+ contextOf t +:+ ". Invalid data URL") /\
  history s' = history s /\ historyIndex s' = historyIndex s /\
  isLoading s' = false.
Proof.
  intros Hstart Hurl s'. subst s'.
  assert (Hd : decodeAnswer invalidCharacter (Resolved url) filename
               = Rejected (ErrorObj "Invalid data URL")).
  { unfold decodeAnswer, dataURLtoFile. now rewrite (split_without_separator _ _ Hurl). }
  rewrite Hd, whole_is_start_then_settle.
  destruct (start t s) as [u awaits] eqn:Hs. cbn in Hstart. subst awaits.
  assert (Hu : u = (fun s0 => setError None (setIsLoading true s0))).
  { destruct t; cbn in Hs;
      repeat match type of Hs with
             | context [match ?d with _ => _ end] => destruct d; try discriminate
             end; now injection Hs as <-. }
  subst u. destruct t; repeat split.
Qed.

(** The service answers a filter of [A] with plain text. *)
Lemma plain_text_answer_fails_the_filter :
  let s' := fire (whole (applyFilter "Synthwave")
                    (decodeAnswer "The string to be decoded is not correctly encoded."
                       (Resolved "I cannot edit this image") "filtered-1700000000000.png"))
              uploaded in
  error s' = Some "Failed to apply the filter. Invalid data URL" /\
  history s' = [imgA] /\ historyIndex s' = 0 /\ isLoading s' = false.
Proof.
  destruct (answer_without_comma_fails_the_transform
              "The string to be decoded is not correctly encoded."
              "I cannot edit this image" "filtered-1700000000000.png"
              (applyFilter "Synthwave") uploaded eq_refl eq_refl)
    as (He & Hh & Hi & Hl).
  cbv zeta. rewrite He, Hh, Hi, Hl. repeat split.
Defined.

(** ** The name of a download *)

Import Download.

Lemma lastIndexOf_absent (s : string) (c : ascii) :
  includes s (String c EmptyString) = false -> lastIndexOf s c = -1.
Proof.
  induction s as [|d s IH]; [reflexivity|].
  rewrite includes_char. intros H. apply orb_false_iff in H as [Hd Hs].
  cbn [lastIndexOf]. rewrite (IH Hs). cbn. now rewrite Ascii.eqb_sym, Hd.
Qed.

Lemma lastIndexOf_last (stem ext : string) (c : ascii) :
  includes ext (String c EmptyString) = false ->
  lastIndexOf (stem +:+ String c ext) c = Z.of_nat (String.length stem).
Proof.
  intros H. induction stem as [|d stem IH].
  - rewrite append_Empty. cbn [lastIndexOf]. rewrite (lastIndexOf_absent _ _ H).
    cbn. now rewrite Ascii.eqb_refl.
  - rewrite append_String. cbn [lastIndexOf]. rewrite IH.
    destruct (Z.leb_spec 0 (Z.of_nat (String.length stem))); [|lia].
    cbn [String.length]. lia.
Qed.

Lemma substring_prefix (a b : string) :
  String.substring 0 (String.length a) (a +:+ b) = a.
Proof.
  induction a as [|c a IH].
  - rewrite append_Empty. now destruct b.
  - rewrite append_String. cbn. now rewrite IH.
Qed.

Lemma substring_nothing (s : string) : String.substring 0 0 s = EmptyString.
Proof. now destruct s. Qed.

Lemma length_append (a b : string) :
  String.length (a +:+ b) = (String.length a + String.length b)%nat.
Proof.
  induction a as [|c a IH]; [reflexivity|].
  rewrite append_String. cbn. now rewrite IH.
Qed.

Lemma js_substring_up_to (a b : string) :
  Js.substring (a +:+ b) 0 (Z.of_nat (String.length a)) = a.
Proof.
  unfold Js.substring. cbv zeta. rewrite length_append.
  rewrite (Z.max_r 0 0), (Z.min_l 0) by lia.
  rewrite (Z.max_l (Z.of_nat (String.length a)) 0) by lia.
  rewrite (Z.min_l (Z.of_nat (String.length a))) by lia.
  rewrite Z.min_l, Z.max_r by lia.
  rewrite Z.sub_0_r, Nat2Z.id. apply substring_prefix.
Qed.

Lemma js_substring_up_to_nonpositive (s : string) (e : Z) :
  e <= 0 -> Js.substring s 0 e = EmptyString.
Proof.
  intros He. unfold Js.substring. cbv zeta.
  rewrite (Z.max_r 0 0), (Z.min_l 0) by lia.
  rewrite (Z.max_r e 0) by lia. rewrite (Z.min_l 0) by lia.
  rewrite Z.min_l, Z.max_r by lia. apply substring_nothing.
Qed.

(** X17: for a file name with a non-empty stem and an extension, the last
    dot separating them, the download is named after the stem: the
    extension is replaced by [-quality-<tier>.jpeg], and earlier dots stay
    in the stem. *)
Theorem download_name_keeps_the_stem (stem ext stamp : string) (q : ExportQuality) :
  stem <> EmptyString ->
  includes ext "." = false ->
  downloadName (stem +:+ String "." ext) stamp q =
    stem +:+ "-quality-" +:+ tierName q +:+ ".jpeg".
Proof.
  intros Hne Hext. unfold downloadName. cbv zeta.
  rewrite (lastIndexOf_last stem ext "." Hext), js_substring_up_to.
  now rewrite (truthy_nonempty stem Hne).
Qed.

(** [photo.final.png] exported at high quality. *)
Lemma download_name_of_a_dotted_name :
  downloadName "photo.final.png" "1700000000000" high = "photo.final-quality-high.jpeg".
Proof.
  apply (download_name_keeps_the_stem "photo.final" "png" "1700000000000" high).
  - discriminate.
  - reflexivity.
Defined.

(** X18: a file name without a dot, or whose only dot is its first
    character, gives no stem: the download is named
    [edited-<time>-quality-<tier>.jpeg]. *)
Theorem download_name_falls_back (rest stamp : string) (q : ExportQuality) :
  includes rest "." = false ->
  let fallback := "edited-" +:+ stamp +:+ "-quality-" +:+ tierName q +:+ ".jpeg" in
  downloadName rest stamp q = fallback /\
  downloadName (String "." rest) stamp q = fallback.
Proof.
  intros H fallback. unfold downloadName. cbv zeta.
  rewrite (lastIndexOf_absent rest "." H).
  change (String "." rest) with (EmptyString +:+ String "." rest).
  rewrite (lastIndexOf_last EmptyString rest "." H).
  rewrite !js_substring_up_to_nonpositive by (cbn; lia).
  cbn [truthy]. rewrite append_assoc. split; reflexivity.
Qed.

(** [snapshot] and [.snapshot]. *)
Lemma download_name_without_stem :
  downloadName "snapshot" "1700000000000" low = "edited-1700000000000-quality-low.jpeg" /\
  downloadName ".snapshot" "1700000000000" low = "edited-1700000000000-quality-low.jpeg".
Proof.
  exact (download_name_falls_back "snapshot" "1700000000000" low eq_refl).
Defined.

(** ** Object URLs *)

Import View.

#[local] Set Warnings "-clear-no-such-hyp".

Lemma pending_elem (e : Effect) (url : nat) :
  url ∈ pending e <-> cleanup e = Some url.
Proof.
  unfold pending. destruct (cleanup e) as [u|]; [|set_solver].
  rewrite elem_of_singleton. split; congruence.
Qed.

Lemma runEffect_store (image : option File) (e : Effect) (b : BlobStore) :
  let e' := fst (runEffect image e b) in
  let b' := snd (runEffect image e b) in
  imageUrl e' = cleanup e' /\
  live b' = (live b ∖ pending e) ∪ pending e' /\
  (forall url, url ∈ pending e' -> url = next b /\ next b' = S (next b)) /\
  (next b <= next b' <= S (next b))%nat /\
  revoked b' = match cleanup e with Some url => url :: revoked b | None => revoked b end.
Proof.
  unfold runEffect, runCleanup, pending.
  destruct image as [f|], (cleanup e) as [u|]; cbn;
    (split; [reflexivity|]); (split; [set_solver|]);
    (split; [intros url Hu; set_solver|]); (split; [lia | reflexivity]).
Qed.

Lemma runCleanup_store (e : Effect) (b : BlobStore) :
  live (runCleanup e b) = live b ∖ pending e /\
  next (runCleanup e b) = next b /\
  revoked (runCleanup e b) =
    match cleanup e with Some url => url :: revoked b | None => revoked b end.
Proof.
  unfold runCleanup, pending.
  destruct (cleanup e) as [u|]; cbn; (split; [set_solver|]); split; reflexivity.
Qed.

Lemma runEffect_fresh (image : option File) (e : Effect) (b : BlobStore) :
  let e' := fst (runEffect image e b) in
  let b' := snd (runEffect image e b) in
  (image = None /\ cleanup e' = None /\ next b' = next b) \/
  (image <> None /\ cleanup e' = Some (next b) /\ next b' = S (next b)).
Proof.
  unfold runEffect, runCleanup.
  destruct image as [f|], (cleanup e) as [u|]; cbn;
    solve [left; repeat split | right; repeat split; discriminate].
Qed.

Lemma tidy_swap (b : BlobStore) (e1 e2 : Effect) :
  tidy (mkViews b e1 e2) -> tidy (mkViews b e2 e1).
Proof.
  unfold tidy. cbn. intros (H1 & H2 & H3 & H4 & H5 & H6 & H7 & H8).
  split; [rewrite H1; apply (comm_L (∪))|]. split; [now symmetry|].
  split; [exact H4|]. split; [exact H3|]. split; [exact H5|].
  split; [exact H6|]. split; [exact H7 | exact H8].
Qed.

Lemma runEffect_preserves_tidy (image : option File) (b : BlobStore) (e other : Effect) :
  tidy (mkViews b e other) ->
  tidy (mkViews (snd (runEffect image e b)) (fst (runEffect image e b)) other).
Proof.
  unfold tidy. cbn [blobs currentEffect originalEffect].
  intros (Hlive & Hdisj & _ & Hother & Hnodup & Hlt & Hall & Hrev).
  destruct (runEffect_store image e b) as (Hurl & Hlive' & _ & Hnext & Hrevoked).
  pose proof (runEffect_fresh image e b) as Hfresh. cbv zeta in Hfresh.
  set (e' := fst (runEffect image e b)) in *.
  set (b' := snd (runEffect image e b)) in *.
  assert (Hpend : forall url, url ∈ pending e' -> url = next b /\ next b' = S (next b)).
  { intros url Hu. apply pending_elem in Hu.
    destruct Hfresh as [(_ & E & _)|(_ & E & En)]; [congruence|].
    split; [congruence | exact En]. }
  assert (Hold : forall url, url ∈ pending e -> url ∈ live b).
  { intros url Hu. rewrite Hlive. set_solver. }
  assert (Hoth : forall url, url ∈ pending other -> url ∈ live b).
  { intros url Hu. rewrite Hlive. set_solver. }
  assert (Hrev' : forall url, url ∈ revoked b' <-> url ∈ pending e \/ url ∈ revoked b).
  { intros url. rewrite Hrevoked, pending_elem.
    destruct (cleanup e) as [u|]; [rewrite elem_of_cons|]; split; intros H; try tauto.
    - destruct H as [->|H]; auto.
    - destruct H as [H|H]; [left; congruence | now right].
    - destruct H as [H|H]; [discriminate | exact H]. }
  split; [rewrite Hlive', Hlive; set_solver|].
  split.
  { intros url Hu Ho. apply Hpend in Hu as [-> _]. apply Hoth, Hlt in Ho. lia. }
  split; [exact Hurl|]. split; [exact Hother|].
  split.
  { rewrite Hrevoked. destruct (cleanup e) as [u|] eqn:E; [|exact Hnodup].
    apply NoDup_cons. split; [|exact Hnodup].
    intros Hin. apply Hrev in Hin as [_ Hin]. apply Hin, Hold, pending_elem, E. }
  split.
  { intros url Hu. rewrite Hlive' in Hu. apply elem_of_union in Hu as [Hu|Hu].
    - apply elem_of_difference in Hu as [Hu _]. apply Hlt in Hu. lia.
    - apply Hpend in Hu as [-> ->]. lia. }
  split.
  { intros url Hu.
    destruct (decide (url < next b)%nat) as [Hb|Hb].
    - destruct (Hall url Hb) as [Hl|Hr].
      + destruct (decide (url ∈ pending e)) as [Hp|Hp].
        * right. apply Hrev'. now left.
        * left. rewrite Hlive'. set_solver.
      + right. apply Hrev'. now right.
    - left. rewrite Hlive'. apply elem_of_union_r, pending_elem.
      destruct Hfresh as [(_ & _ & En)|(_ & E & En)]; [lia|].
      rewrite E. f_equal. lia. }
  intros url H. apply Hrev' in H. split.
  - destruct H as [H|H]; [apply Hold, Hlt in H | apply Hrev in H as [H _]]; lia.
  - intros Hin. rewrite Hlive' in Hin.
    apply elem_of_union in Hin as [Hin|Hin].
    + apply elem_of_difference in Hin as [Hl Hn].
      destruct H as [H|H]; [contradiction|]. now apply Hrev in H as [_ H].
    + apply Hpend in Hin as [-> _].
      destruct H as [H|H]; [apply Hold, Hlt in H | apply Hrev in H as [H _]]; lia.
Qed.

Lemma tidy_mounted : tidy mounted.
Proof.
  unfold tidy, mounted, pending. cbn.
  split; [set_solver|]. split; [set_solver|]. split; [reflexivity|]. split; [reflexivity|].
  split; [apply NoDup_nil_2|]. split; [set_solver|].
  split; [intros url Hu; lia | set_solver].
Qed.

Lemma react_preserves_tidy (v : Views) (c : Change) :
  tidy v -> tidy (react v c).
Proof.
  destruct v as [b cur orig]. intros Hv. destruct c as [image|image]; unfold react;
    cbn [blobs currentEffect originalEffect].
  - rewrite (surjective_pairing (runEffect image cur b)).
    now apply runEffect_preserves_tidy.
  - rewrite (surjective_pairing (runEffect image orig b)).
    now apply tidy_swap, runEffect_preserves_tidy, tidy_swap.
Qed.

Lemma reactAll_preserves_tidy (cs : list Change) (v : Views) :
  tidy v -> tidy (reactAll cs v).
Proof.
  revert v. induction cs as [|c cs IH]; intros v Hv; cbn; [exact Hv|].
  apply IH. now apply react_preserves_tidy.
Qed.

Lemma runEffect_url (image : option File) (e : Effect) (b : BlobStore) :
  is_Some (imageUrl (fst (runEffect image e b))) <-> is_Some image.
Proof.
  unfold runEffect, runCleanup.
  destruct image as [f|], (cleanup e) as [u|]; cbn;
    split; intros [y Hy]; try discriminate; eauto.
Qed.

Lemma shown_images_have_urls (cs : list Change) (v : Views) (shownC shownO : option File) :
  (is_Some (imageUrl (currentEffect v)) <-> is_Some shownC) ->
  (is_Some (imageUrl (originalEffect v)) <-> is_Some shownO) ->
  (is_Some (imageUrl (currentEffect (reactAll cs v))) <-> is_Some (currentShown cs shownC)) /\
  (is_Some (imageUrl (originalEffect (reactAll cs v))) <-> is_Some (originalShown cs shownO)).
Proof.
  revert v shownC shownO.
  induction cs as [|c cs IH]; intros v shownC shownO HC HO; [now split|].
  cbn [reactAll currentShown originalShown fold_left].
  apply IH; destruct c as [image|image]; unfold react;
    [ rewrite (surjective_pairing (runEffect image (currentEffect v) (blobs v)))
    | rewrite (surjective_pairing (runEffect image (originalEffect v) (blobs v)))
    | rewrite (surjective_pairing (runEffect image (currentEffect v) (blobs v)))
    | rewrite (surjective_pairing (runEffect image (originalEffect v) (blobs v))) ];
    cbn [currentEffect originalEffect];
    first [apply runEffect_url | assumption].
Qed.

(** X19: however the current and the original image change, each role
    holds an object URL in its state cell exactly when it displays an image
    (the last change of that role brought one), and the live object URLs
    are exactly the URLs held in the two cells: one per displayed image,
    none for a missing image, never the same URL for both roles, so at most
    two. *)
Theorem live_urls_are_the_displayed_ones (cs : list Change) :
  let v := reactAll cs mounted in
  (is_Some (imageUrl (currentEffect v)) <-> is_Some (currentShown cs None)) /\
  (is_Some (imageUrl (originalEffect v)) <-> is_Some (originalShown cs None)) /\
  (forall url, url ∈ live (blobs v) <->
     imageUrl (currentEffect v) = Some url \/ imageUrl (originalEffect v) = Some url) /\
  (forall url, imageUrl (currentEffect v) = Some url ->
     imageUrl (originalEffect v) <> Some url) /\
  (size (live (blobs v)) <= 2)%nat.
Proof.
  cbv zeta.
  destruct (shown_images_have_urls cs mounted None None) as [HsC HsO];
    [split; intros [y Hy]; discriminate Hy | split; intros [y Hy]; discriminate Hy |].
  split; [exact HsC|]. split; [exact HsO|].
  destruct (reactAll_preserves_tidy cs mounted tidy_mounted)
    as (Hlive & Hdisj & Hcur & Horig & _).
  set (v := reactAll cs mounted) in *.
  assert (Hiff : forall url, url ∈ live (blobs v) <->
            imageUrl (currentEffect v) = Some url \/ imageUrl (originalEffect v) = Some url).
  { intros url. rewrite Hlive, elem_of_union, !pending_elem, Hcur, Horig. tauto. }
  split; [exact Hiff|]. split.
  - intros url Hc Ho. rewrite Hcur in Hc. rewrite Horig in Ho.
    apply pending_elem in Hc, Ho. exact (Hdisj url Hc Ho).
  - rewrite Hlive, size_union by exact Hdisj.
    assert (Hs : forall e, (size (pending e) <= 1)%nat).
    { intros e. unfold pending. destruct (cleanup e);
        [rewrite size_singleton | rewrite size_empty]; lia. }
    pose proof (Hs (currentEffect v)). pose proof (Hs (originalEffect v)). lia.
Qed.

(** X20: no object URL is ever revoked twice, only URLs that were created
    are revoked, and a revoked URL is neither live nor held in a URL state
    cell. *)
Theorem no_url_is_revoked_twice (cs : list Change) :
  let v := reactAll cs mounted in
  NoDup (revoked (blobs v)) /\
  (forall url, url ∈ revoked (blobs v) ->
     (url < next (blobs v))%nat /\ (url ∉ live (blobs v)) /\
     imageUrl (currentEffect v) <> Some url /\
     imageUrl (originalEffect v) <> Some url).
Proof.
  cbv zeta.
  destruct (reactAll_preserves_tidy cs mounted tidy_mounted)
    as (Hlive & _ & Hcur & Horig & Hnodup & _ & _ & Hrev).
  set (v := reactAll cs mounted) in *.
  split; [exact Hnodup|]. intros url Hu. destruct (Hrev url Hu) as [Hlt Hnot].
  split; [exact Hlt|]. split; [exact Hnot|].
  rewrite Hlive in Hnot. rewrite Hcur, Horig.
  split; intros E; apply Hnot; [apply elem_of_union_l | apply elem_of_union_r];
    now apply pending_elem.
Qed.

(** X21: unmounting leaves no object URL live: every URL created during
    the life of the component has then been revoked, exactly once. *)
Theorem unmount_releases_every_url (cs : list Change) :
  let b := blobs (unmount (reactAll cs mounted)) in
  live b = ∅ /\ NoDup (revoked b) /\
  (forall url, (url < next b)%nat <-> url ∈ revoked b).
Proof.
  cbv zeta.
  destruct (reactAll_preserves_tidy cs mounted tidy_mounted)
    as (Hlive & Hdisj & _ & _ & Hnodup & Hlt & Hall & Hrev).
  set (v := reactAll cs mounted) in *.
  unfold unmount. cbn [blobs].
  destruct (runCleanup_store (currentEffect v) (blobs v)) as (L1 & N1 & R1).
  set (b1 := runCleanup (currentEffect v) (blobs v)) in *.
  destruct (runCleanup_store (originalEffect v) b1) as (L2 & N2 & R2).
  set (b2 := runCleanup (originalEffect v) b1) in *.
  assert (Hin : forall url, url ∈ revoked b2 <->
            url ∈ pending (originalEffect v) \/ url ∈ pending (currentEffect v) \/
            url ∈ revoked (blobs v)).
  { intros url. rewrite R2, R1, !pending_elem.
    destruct (cleanup (originalEffect v)) as [o|], (cleanup (currentEffect v)) as [c|];
      rewrite ?elem_of_cons; split; intros H;
      repeat match goal with
             | H : _ \/ _ |- _ => destruct H
             | H : Some _ = Some _ |- _ => injection H as ->
             | H : None = Some _ |- _ => discriminate H
             end; subst; auto. }
  split; [rewrite L2, L1, Hlive; set_solver|]. split.
  - rewrite R2, R1.
    assert (Hc : forall c, cleanup (currentEffect v) = Some c -> c ∉ revoked (blobs v)).
    { intros c E Hc. apply Hrev in Hc as [_ Hc]. apply Hc. rewrite Hlive.
      now apply elem_of_union_l, pending_elem. }
    assert (Ho : forall o, cleanup (originalEffect v) = Some o -> o ∉ revoked (blobs v)).
    { intros o E Ho. apply Hrev in Ho as [_ Ho]. apply Ho. rewrite Hlive.
      now apply elem_of_union_r, pending_elem. }
    destruct (cleanup (originalEffect v)) as [o|] eqn:Eo,
             (cleanup (currentEffect v)) as [c|] eqn:Ec.
    + apply NoDup_cons. split.
      * rewrite elem_of_cons. intros [->|H]; [|now apply (Ho o)].
        apply (Hdisj c); now apply pending_elem.
      * apply NoDup_cons. split; [now apply Hc | exact Hnodup].
    + apply NoDup_cons. split; [now apply Ho | exact Hnodup].
    + apply NoDup_cons. split; [now apply Hc | exact Hnodup].
    + exact Hnodup.
  - intros url. rewrite N2, N1, Hin. split.
    + intros H. destruct (Hall url H) as [Hl|Hr]; [|auto].
      rewrite Hlive in Hl. apply elem_of_union in Hl as [Hl|Hl]; auto.
    + intros [H|[H|H]].
      * apply Hlt. rewrite Hlive. now apply elem_of_union_r.
      * apply Hlt. rewrite Hlive. now apply elem_of_union_l.
      * now apply Hrev in H as [H _].
Qed.

(** ** What the user sees *)

Import Render.

Lemma truthy_displayErrorMessage (err : Thrown) (context : string) :
  truthy (displayErrorMessage err context) = true.
Proof. unfold displayErrorMessage. now destruct (rateLimited (rawErrorMessage err)). Qed.

Ltac close_leaf H :=
  cbn in H;
  first
    [ congruence
    | injection H as <-;
      split; [first [reflexivity | apply truthy_displayErrorMessage]
             | repeat split; auto] ].

(** No commit comes with an error: a flow started while no error is set
    and ending with one has left History and cursor alone. *)
Lemma error_after_flow (f : Flow) (s : State) (message : string) :
  error s = None ->
  error (runFlow f s) = Some message ->
  truthy message = true /\
  history (runFlow f s) = history s /\
  historyIndex (runFlow f s) = historyIndex s /\
  (isLoading s = false -> isLoading (runFlow f s) = false).
Proof.
  intros Hnone H.
  destruct f as [res|p res|p res|env|ev|res];
    cbn [runFlow] in *;
    unfold fire, handleGenerate, handleApplyFilter, handleApplyAdjustment,
      handleApplyCrop, handleDownload, handleDemoImageSelect, skip in *.
  - destruct (currentImage s); [|close_leaf H].
    destruct (negb (truthy (trim (prompt s)))); [close_leaf H|].
    destruct (editHotspot s); [|close_leaf H].
    destruct res; close_leaf H.
  - destruct (currentImage s); [|close_leaf H]. destruct res; close_leaf H.
  - destruct (currentImage s); [|close_leaf H]. destruct res; close_leaf H.
  - destruct (completedCrop s); [|close_leaf H].
    destruct (imgRef_current env); [|close_leaf H].
    destruct (canvas_ctx env); [|close_leaf H].
    destruct (dataURLtoFile (canvas_toDataURL env) (croppedName env)); close_leaf H.
  - destruct (currentImage s); [|close_leaf H].
    destruct ev as [[|]|]; close_leaf H.
  - destruct res; close_leaf H.
Qed.

(** X22: a flow started from the editor, with no error showing and nothing
    busy, that ends with an error set has committed nothing.  The error
    panel then shows that message, whether or not an image is displayed;
    dismissing it with "Try Again" brings back the editor on the very image
    that was current before the flow (or the start screen when there is
    none), with History and cursor untouched. *)
Theorem failure_panel_can_be_dismissed
    (f : Flow) (s : State) (message : string) (currentImageUrl : option nat) :
  error s = None ->
  isLoading s = false ->
  error (runFlow f s) = Some message ->
  let failed := runFlow f s in
  let retried := setError None failed in
  renderContent failed currentImageUrl = ErrorPanel message /\
  renderContent retried currentImageUrl =
    match currentImageUrl with Some _ => Editor | None => StartScreen end /\
  currentImage retried = currentImage s /\
  history retried = history s /\ historyIndex retried = historyIndex s.
Proof.
  intros Hnone Hl He failed retried.
  destruct (error_after_flow f s message Hnone He) as (Ht & Hh & Hi & Hb).
  specialize (Hb Hl). fold failed in He, Hh, Hi, Hb.
  split; [unfold renderContent; now rewrite Hb, He, Ht|].
  split; [unfold renderContent; cbn; now rewrite Hb|].
  unfold currentImage. cbn. now rewrite Hh, Hi.
Qed.

(** A rejected retouch of the focused image, shown under URL 0. *)
Lemma rejected_retouch_can_be_dismissed :
  let failed := runFlow (Retouch (Rejected (ErrorObj "503 Service Unavailable"))) focused in
  renderContent failed (Some 0%nat) =
    ErrorPanel "Failed to generate the image. 503 Service Unavailable" /\
  renderContent (setError None failed) (Some 0%nat) = Editor /\
  currentImage (setError None failed) = Some imgA.
Proof.
  destruct (failure_panel_can_be_dismissed
              (Retouch (Rejected (ErrorObj "503 Service Unavailable"))) focused
              "Failed to generate the image. 503 Service Unavailable" (Some 0%nat)
              eq_refl eq_refl eq_refl) as (Hp & Hr & Hc & _).
  cbv zeta. split; [exact Hp|]. split; [exact Hr | rewrite Hc; reflexivity].
Defined.

(** X23: a button that is enabled acts.  With the cursor inside the
    History: an enabled Undo moves the cursor back by one, an enabled Redo
    moves it forward by one, an enabled Reset moves it from a later
    revision to the first, and with Generate enabled [handleGenerate]
    passes every one of its guards: it raises the busy flag, clears the
    error and goes on to the image service, so that what it does next is
    decided by the answer alone. *)
Theorem enabled_buttons_act (s : State) :
  0 <= historyIndex s < Z.of_nat (length (history s)) ->
  (undoDisabled s = false ->
     historyIndex (fire handleUndo s) = historyIndex s - 1) /\
  (redoDisabled s = false ->
     historyIndex (fire handleRedo s) = historyIndex s + 1) /\
  (resetDisabled s = false ->
     historyIndex (fire handleReset s) = 0 /\ 0 < historyIndex s) /\
  (generateDisabled s = false ->
     snd (start generate s) = true /\
     forall res,
       fire (handleGenerate res) s =
       settle generate res s (setError None (setIsLoading true s))).
Proof.
  intros Hc. unfold undoDisabled, redoDisabled, resetDisabled, generateDisabled.
  split; [|split; [|split]].
  - intros H. apply negb_false_iff in H. unfold canUndo in H. apply Z.ltb_lt in H.
    now rewrite undo_when_possible by lia.
  - intros H. apply negb_false_iff in H. unfold canRedo in H. apply Z.ltb_lt in H.
    now rewrite redo_when_possible by lia.
  - intros H. apply negb_false_iff in H. unfold canUndo in H. apply Z.ltb_lt in H.
    split; [|exact H]. rewrite restart_when_nonempty; [reflexivity|].
    intros E. rewrite E in Hc. cbn in Hc. lia.
  - intros H. apply orb_false_iff in H as [H Hh]. apply orb_false_iff in H as [_ Hp].
    apply negb_false_iff in Hh. apply bool_decide_eq_true in Hh as [p Hh].
    destruct (at_index_in_range (history s) (historyIndex s) Hc) as [c Hcur].
    split.
    + cbn [start]. unfold currentImage. now rewrite Hcur, Hp, Hh.
    + intros res. unfold fire, handleGenerate, settle, currentImage.
      rewrite Hcur, Hp, Hh. now destruct res.
Qed.

(** On [A, B, C] with the cursor on [B], a point clicked and a prompt
    typed: the four buttons are enabled; the retouch answered with [D]
    puts it after [B]. *)
Lemma enabled_buttons_act_while_editing :
  historyIndex (fire handleUndo editing) = 0 /\
  historyIndex (fire handleRedo editing) = 2 /\
  historyIndex (fire handleReset editing) = 0 /\
  snd (start generate editing) = true /\
  history (fire (handleGenerate (Resolved imgD)) editing) = [imgA; imgB; imgD].
Proof.
  destruct (enabled_buttons_act editing) as (Hu & Hr & Hz & Hg); [now vm_compute|].
  rewrite (Hu eq_refl), (Hr eq_refl). destruct (Hz eq_refl) as [-> _].
  destruct (Hg eq_refl) as [-> Hs]. rewrite Hs. repeat split.
Defined.

(** ** Where revisions come from, and cropping twice *)

Lemma slice_subseteq {A} (l : list A) (start end_ : Z) : slice l start end_ ⊆ l.
Proof.
  unfold slice. cbv zeta. etransitivity; [apply subseteq_take | apply subseteq_drop].
Qed.

Lemma step_brings_only_given (s : State) (o : Op) (f : File) :
  f ∈ history (step s o) -> f ∈ history s \/ f ∈ given o.
Proof.
  destruct o as [x|x| | | |]; cbn [step given].
  - intros H. now right.
  - destruct (commit_fields x s) as (-> & _). rewrite elem_of_app.
    intros [H|H]; [left; exact (slice_subseteq _ _ _ f H) | now right].
  - destruct (navigation_keeps_history s) as [-> _]. now left.
  - destruct (navigation_keeps_history s) as [_ ->]. now left.
  - destruct (decide (history s = [])) as [E|E].
    + rewrite restart_when_empty by exact E. now left.
    + rewrite restart_when_nonempty by exact E. now left.
  - cbn. now left.
Qed.

Lemma run_brings_only_given (ops : list Op) (s : State) (f : File) :
  f ∈ history (run ops s) ->
  f ∈ history s \/ exists o, o ∈ ops /\ f ∈ given o.
Proof.
  revert s. induction ops as [|o ops IH]; intros s; cbn.
  - now left.
  - intros H. apply IH in H as [H|(o' & Ho & Hf)].
    + apply step_brings_only_given in H as [H|H]; [now left|].
      right. exists o. split; [apply list_elem_of_here | exact H].
    + right. exists o'. split; [now apply list_elem_of_further | exact Hf].
Qed.

(** X24: the History holds nothing but files that were handed to it: every
    revision found in the History after a sequence of operations was the
    argument of a reset or of a commit of that sequence. *)
Theorem history_holds_only_given_files (ops : list Op) (f : File) :
  f ∈ history (run ops initialState) ->
  exists o, o ∈ ops /\ (o = reset f \/ o = commit f).
Proof.
  intros H. apply run_brings_only_given in H as [H|(o & Ho & Hf)].
  - cbn in H. now apply elem_of_nil in H.
  - exists o. split; [exact Ho|].
    destruct o; cbn in Hf; try (now apply elem_of_nil in Hf);
      apply list_elem_of_singleton in Hf as ->; auto.
Qed.

(** [C] in the History of upload A, commit B, commit C, undo. *)
Lemma revision_C_was_committed :
  exists o, o ∈ [reset imgA; commit imgB; commit imgC; undo] /\
            (o = reset imgC \/ o = commit imgC).
Proof.
  apply (history_holds_only_given_files [reset imgA; commit imgB; commit imgC; undo] imgC).
  vm_compute. apply list_elem_of_further, list_elem_of_further, list_elem_of_here.
Defined.

(** X25: a crop that goes through, the data URL of the canvas decoding
    to a file, shows that file and consumes the selection: the commit
    clears it, so applying the crop again without drawing a new rectangle
    is refused with "Please select an area to crop." and commits nothing,
    whatever the canvas would do. *)
Theorem crop_cannot_be_applied_twice (env again : CropEnv) (s : State) :
  flowFailure (CropFlow env) s = None ->
  let cropped := runFlow (CropFlow env) s in
  (exists newImageFile,
     dataURLtoFile (canvas_toDataURL env) (croppedName env) = Returned newImageFile /\
     currentImage cropped = Some newImageFile) /\
  flowFailure (CropFlow again) cropped = Some CropSelectionMissing /\
  runFlow (CropFlow again) cropped =
    setError (Some "Please select an area to crop.") cropped.
Proof.
  cbn [flowFailure runFlow]. unfold fire, handleApplyCrop.
  destruct (completedCrop s); [|discriminate].
  destruct (imgRef_current env); [|discriminate].
  destruct (canvas_ctx env); [|discriminate].
  destruct (dataURLtoFile (canvas_toDataURL env) (croppedName env)) as [x| |];
    [|discriminate|discriminate].
  intros _. cbv zeta.
  split; [exists x; split; [reflexivity | apply commit_current_image]|].
  split; reflexivity.
Qed.

(** The focused image cropped, then the button pressed again. *)
Lemma second_crop_is_refused :
  let cropped := runFlow (CropFlow cropOk) focused in
  history cropped = [imgA; imgCropped] /\
  error (runFlow (CropFlow cropOk) cropped) = Some "Please select an area to crop." /\
  history (runFlow (CropFlow cropOk) cropped) = [imgA; imgCropped].
Proof.
  destruct (crop_cannot_be_applied_twice cropOk cropOk focused eq_refl) as (_ & _ & H).
  cbv zeta. rewrite H. repeat split.
Defined.

(** ** Loading an image *)

(** X26: every way of loading an image starts afresh.  Picking files
    uploads the first one and ignores the others; a demo image that
    arrives is uploaded likewise and the busy flag is lowered.  Either way
    the History is that single file, shown as current and as original,
    with nothing to undo or redo and no error; an empty selection changes
    nothing. *)
Theorem loading_an_image_starts_afresh (f : File) (others : list File) (s : State) :
  let picked := fire (handleFileSelect (Some (f :: others))) s in
  let demo := fire (handleDemoImageSelect (Resolved f)) s in
  picked = fire (handleImageUpload f) s /\
  history demo = history picked /\ historyIndex demo = historyIndex picked /\
  isLoading demo = false /\ error demo = None /\
  history picked = [f] /\
  currentImage picked = Some f /\ originalImage picked = Some f /\
  canUndo picked = false /\ canRedo picked = false /\ error picked = None /\
  fire (handleFileSelect (Some [])) s = s /\
  fire (handleFileSelect None) s = s.
Proof. cbv zeta. repeat split. Qed.
